(** * Slide deck controller (script.js): shallow embedding and properties

    The script drives a presentation: one integer, [currentSlide], a static
    collection of slide elements whose class lists carry the visual flags
    ['active'] and ['exit-left'], four UI targets (two buttons, a counter
    and a progress bar), and one deferred continuation per navigation,
    scheduled with [setTimeout(..., 50)].

    Modelling choices.
    - Slide numbers and screen coordinates are integers ([Z]).
    - Elements are shared mutable objects.  The slide collection is a
      static [NodeList]; an element reference is its position in the
      collection, and every read or write of an element goes through the
      one store [slides] of the world.
    - A method is a computation in the [JS] monad: it transforms the world
      and completes normally or by throwing.  Effects performed before a
      throw stay in the world, as in JavaScript.
    - [setTimeout] appends to a queue of pending timers.  All timers of the
      deck have the same delay, so they fire in the order they were
      scheduled; the firing of the oldest timer is an event of its own.
    - The progress ratio is the only non-integer number the script
      computes. It is an IEEE 754 binary64 number, computed with the
      division and the multiplication of the Standard Library's
      [SpecFloat] at precision 53, rounding to nearest even as JavaScript
      does. The width written to the progress bar is kept as that number
      followed by the percent sign; the decimal digits that the template
      string prints for it are not modelled.
    - The page provides [#prevBtn], [#nextBtn], [#slideCounter] and
      [#progress]. A click is delivered whether or not the button is
      disabled, which only adds behaviours.
    - [preventDefault] is left out. The fade-in of the body on load and
      the help dialog on ['?'] do not touch the state of the deck; they
      are modelled on top of it, in [Page]. *)

From Stdlib Require Import ZArith Lia SpecFloat.
From stdpp Require Import base tactics option list strings pretty gmap.

Local Open Scope Z_scope.

(** ** Elements of the host document *)

(** A slide element: its [classList] and the text of the first descendant
    matching ['.slide-title, .main-title'], when there is one. *)
Record Slide := mkSlide {
  classList : list string;
  titleText : option string
}.

(** A navigation button: the [disabled] property and [style.opacity]. *)
Record Button := mkButton {
  disabled : bool;
  opacity : string
}.

(** JavaScript numbers that are not kept as integers: IEEE 754
    binary64, as the specification of floats of the Standard Library has
    them (53 bits of precision, exponents below 1024). *)
Definition prec : Z := 53.
Definition emax : Z := 1024.

Definition JSNumber : Type := spec_float.

(** The number an integer denotes: itself when it fits in 53 bits, the
    nearest double otherwise. *)
Definition Z_to_number (z : Z) : JSNumber := binary_normalize prec emax z 0 false.

(** [a / b] and [x * k] on numbers, each rounded to nearest even. *)
Definition js_div (a b : Z) : JSNumber :=
  SFdiv prec emax (Z_to_number a) (Z_to_number b).

Definition js_mul (x : JSNumber) (k : Z) : JSNumber :=
  SFmul prec emax x (Z_to_number k).

(** [style.width] of the progress bar: whatever the page had, or the
    template string [`${p}%`]. *)
Inductive Width :=
  | WidthInitial (css : string)
  | Percent (p : JSNumber).

(** [DOMTokenList.remove] and [DOMTokenList.add]. *)
Definition token_remove (tok : string) (l : list string) : list string :=
  filter (λ c, c ≠ tok) l.

Definition token_add (tok : string) (l : list string) : list string :=
  if decide (tok ∈ l) then l else l ++ [tok].

Definition has_class (tok : string) (sl : Slide) : Prop := tok ∈ classList sl.

Definition slide_remove (tok : string) (sl : Slide) : Slide :=
  mkSlide (token_remove tok (classList sl)) (titleText sl).

Definition slide_add (tok : string) (sl : Slide) : Slide :=
  mkSlide (token_add tok (classList sl)) (titleText sl).

(** ** The world: controller fields, document, event loop *)

Inductive Error := TypeError (msg : string).

(** The closure handed to [setTimeout] in [goToSlide]: it captured
    [targetSlideElement] (possibly [undefined]) and [slideNumber]. *)
Record Timer := mkTimer {
  targetSlideElement : option nat;
  slideNumber : Z;
  delay : Z
}.

Record World := mkWorld {
  (* fields of the SlideDeck instance *)
  currentSlide : Z;
  totalSlides : Z;
  (* the document *)
  slides : list Slide;
  prevBtn : Button;
  nextBtn : Button;
  slideCounter : string;
  progressBar : Width;
  documentTitle : string;
  (* variables closed over by the touch listeners *)
  touchStartX : Z;
  touchEndX : Z;
  (* the event loop *)
  timers : list Timer;
  console : list string
}.

Definition set_currentSlide (v : Z) (w : World) : World :=
  mkWorld v (totalSlides w) (slides w) (prevBtn w) (nextBtn w) (slideCounter w)
    (progressBar w) (documentTitle w) (touchStartX w) (touchEndX w) (timers w) (console w).

Definition set_slides (v : list Slide) (w : World) : World :=
  mkWorld (currentSlide w) (totalSlides w) v (prevBtn w) (nextBtn w) (slideCounter w)
    (progressBar w) (documentTitle w) (touchStartX w) (touchEndX w) (timers w) (console w).

Definition set_prevBtn (v : Button) (w : World) : World :=
  mkWorld (currentSlide w) (totalSlides w) (slides w) v (nextBtn w) (slideCounter w)
    (progressBar w) (documentTitle w) (touchStartX w) (touchEndX w) (timers w) (console w).

Definition set_nextBtn (v : Button) (w : World) : World :=
  mkWorld (currentSlide w) (totalSlides w) (slides w) (prevBtn w) v (slideCounter w)
    (progressBar w) (documentTitle w) (touchStartX w) (touchEndX w) (timers w) (console w).

Definition set_slideCounter (v : string) (w : World) : World :=
  mkWorld (currentSlide w) (totalSlides w) (slides w) (prevBtn w) (nextBtn w) v
    (progressBar w) (documentTitle w) (touchStartX w) (touchEndX w) (timers w) (console w).

Definition set_progressBar (v : Width) (w : World) : World :=
  mkWorld (currentSlide w) (totalSlides w) (slides w) (prevBtn w) (nextBtn w) (slideCounter w)
    v (documentTitle w) (touchStartX w) (touchEndX w) (timers w) (console w).

Definition set_documentTitle (v : string) (w : World) : World :=
  mkWorld (currentSlide w) (totalSlides w) (slides w) (prevBtn w) (nextBtn w) (slideCounter w)
    (progressBar w) v (touchStartX w) (touchEndX w) (timers w) (console w).

Definition set_touchStartX (v : Z) (w : World) : World :=
  mkWorld (currentSlide w) (totalSlides w) (slides w) (prevBtn w) (nextBtn w) (slideCounter w)
    (progressBar w) (documentTitle w) v (touchEndX w) (timers w) (console w).

Definition set_touchEndX (v : Z) (w : World) : World :=
  mkWorld (currentSlide w) (totalSlides w) (slides w) (prevBtn w) (nextBtn w) (slideCounter w)
    (progressBar w) (documentTitle w) (touchStartX w) v (timers w) (console w).

Definition set_timers (v : list Timer) (w : World) : World :=
  mkWorld (currentSlide w) (totalSlides w) (slides w) (prevBtn w) (nextBtn w) (slideCounter w)
    (progressBar w) (documentTitle w) (touchStartX w) (touchEndX w) v (console w).

Definition set_console (v : list string) (w : World) : World :=
  mkWorld (currentSlide w) (totalSlides w) (slides w) (prevBtn w) (nextBtn w) (slideCounter w)
    (progressBar w) (documentTitle w) (touchStartX w) (touchEndX w) (timers w) v.

(** ** The monad of method bodies *)

Inductive Completion (A : Type) :=
  | Normal (a : A)
  | Throw (e : Error).
Arguments Normal {A} a.
Arguments Throw {A} e.

Definition JS (A : Type) : Type := World → Completion A * World.

Definition js_ret {A} (a : A) : JS A := λ w, (Normal a, w).

Definition js_bind {A B} (m : JS A) (k : A → JS B) : JS B :=
  λ w, match m w with
       | (Normal a, w') => k a w'
       | (Throw e, w') => (Throw e, w')
       end.

Definition throw {A} (e : Error) : JS A := λ w, (Throw e, w).
Definition gets {A} (f : World → A) : JS A := λ w, (Normal (f w), w).
Definition modify (f : World → World) : JS unit := λ w, (Normal tt, f w).

#[global] Instance JS_ret : MRet JS := @js_ret.
#[global] Instance JS_bind : MBind JS := λ A B k m, js_bind m k.

(** [this.slides[i]]: an element reference, or [undefined] out of range. *)
Definition item (l : list Slide) (i : Z) : option nat :=
  if (0 <=? i) && (i <? Z.of_nat (length l)) then Some (Z.to_nat i) else None.

(** Member access on a value that may be [undefined]. *)
Definition deref (what : string) (r : option nat) : JS nat :=
  match r with
  | Some i => mret i
  | None =>
      throw (TypeError ("Cannot read properties of undefined (reading '" +:+ what +:+ "')"))
  end.

Definition remove_tokens (toks : list string) (sl : Slide) : Slide :=
  foldl (λ acc tok, slide_remove tok acc) sl toks.

Definition classList_remove (r : option nat) (toks : list string) : JS unit :=
  i ← deref "classList" r;
  modify (λ w, set_slides (alter (remove_tokens toks) i (slides w)) w).

Definition classList_add (r : option nat) (tok : string) : JS unit :=
  i ← deref "classList" r;
  modify (λ w, set_slides (alter (slide_add tok) i (slides w)) w).

(** [el.querySelector('.slide-title, .main-title')], then [textContent]
    of the match; [None] when no descendant matches. *)
Definition title_of (l : list Slide) (i : nat) : option string :=
  match l !! i with
  | Some sl => titleText sl
  | None => None
  end.

Definition querySelector_title (r : option nat) : JS (option string) :=
  i ← deref "querySelector" r;
  gets (λ w, title_of (slides w) i).

Definition console_log (msg : string) : JS unit :=
  modify (λ w, set_console (console w ++ [msg]) w).

Definition setTimeout (t : Timer) : JS unit :=
  modify (λ w, set_timers (timers w ++ [t]) w).

(** ** Methods of [SlideDeck] *)

Definition title_suffix : string := " - GMC Acadia Korea Market".

Definition updateButtonStates : JS unit :=
  cur ← gets currentSlide;
  (if cur =? 1
   then modify (set_prevBtn (mkButton true "0.3"))
   else modify (set_prevBtn (mkButton false "1")));;
  cur ← gets currentSlide;
  total ← gets totalSlides;
  if cur =? total
  then modify (set_nextBtn (mkButton true "0.3"))
  else modify (set_nextBtn (mkButton false "1")).

Definition updateUI : JS unit :=
  cur ← gets currentSlide;
  total ← gets totalSlides;
  modify (set_slideCounter (pretty cur +:+ " / " +:+ pretty total));;
  let progressPercentage := js_mul (js_div cur total) 100 in
  modify (set_progressBar (Percent progressPercentage));;
  updateButtonStates;;
  cur ← gets currentSlide;
  currentSlideElement ← gets (λ w, item (slides w) (cur - 1));
  slideTitle ← querySelector_title currentSlideElement;
  match slideTitle with
  | Some text => modify (set_documentTitle (text +:+ title_suffix))
  | None => mret tt
  end.

Inductive Direction := next | prev.

(** The body of the arrow function that [goToSlide] defers. *)
Definition commit (t : Timer) : JS unit :=
  modify (λ w, set_slides (remove_tokens ["active"; "exit-left"] <$> slides w) w);;
  classList_add (targetSlideElement t) "active";;
  modify (set_currentSlide (slideNumber t));;
  updateUI;;
  cur ← gets currentSlide;
  total ← gets totalSlides;
  console_log ("Navigated to slide " +:+ pretty cur +:+ "/" +:+ pretty total).

Definition goToSlide (n : Z) : JS unit :=
  total ← gets totalSlides;
  if (n <? 1) || (n >? total) then mret tt
  else
    cur ← gets currentSlide;
    let direction := if n >? cur then next else prev in
    currentSlideElement ← gets (λ w, item (slides w) (cur - 1));
    targetSlideElement ← gets (λ w, item (slides w) (n - 1));
    classList_remove currentSlideElement ["active"];;
    match direction with
    | next => classList_add currentSlideElement "exit-left"
    | prev => mret tt
    end;;
    setTimeout (mkTimer targetSlideElement n 50).

Definition nextSlide : JS unit :=
  cur ← gets currentSlide;
  total ← gets totalSlides;
  if cur <? total then goToSlide (cur + 1) else mret tt.

Definition previousSlide : JS unit :=
  cur ← gets currentSlide;
  if cur >? 1 then goToSlide (cur - 1) else mret tt.

Definition swipeThreshold : Z := 50.

Definition handleSwipe (startX endX : Z) : JS unit :=
  let difference := startX - endX in
  if Z.abs difference >? swipeThreshold then
    if difference >? 0 then nextSlide else previousSlide
  else mret tt.

(** ** Listeners and the event loop *)

Inductive Event :=
  | ClickPrev
  | ClickNext
  | KeyDown (key : string)
  | TouchStart (screenX : Z)
  | TouchEnd (screenX : Z)
  | TimerFires
  (* direct calls on the instance published as [window.slideDeck] *)
  | CallNextSlide
  | CallPreviousSlide
  | CallGoToSlide (n : Z)
  | CallHandleSwipe (startX endX : Z).

Definition onKeyDown (key : string) : JS unit :=
  if bool_decide (key ∈ ["ArrowRight"; "PageDown"; " "]) then nextSlide
  else if bool_decide (key ∈ ["ArrowLeft"; "PageUp"]) then previousSlide
  else if bool_decide (key = "Home") then goToSlide 1
  else if bool_decide (key = "End") then total ← gets totalSlides; goToSlide total
  else mret tt.

(** The oldest pending timer runs; with nothing pending nothing happens. *)
Definition fireTimer : JS unit :=
  λ w, match timers w with
       | [] => (Normal tt, w)
       | t :: rest => commit t (set_timers rest w)
       end.

Definition handle (e : Event) : JS unit :=
  match e with
  | ClickPrev => previousSlide
  | ClickNext => nextSlide
  | KeyDown key => onKeyDown key
  | TouchStart x => modify (set_touchStartX x)
  | TouchEnd x =>
      modify (set_touchEndX x);;
      startX ← gets touchStartX;
      endX ← gets touchEndX;
      handleSwipe startX endX
  | TimerFires => fireTimer
  | CallNextSlide => nextSlide
  | CallPreviousSlide => previousSlide
  | CallGoToSlide n => goToSlide n
  | CallHandleSwipe startX endX => handleSwipe startX endX
  end.

(** Events are handled one after the other; an exception escaping one
    handler is reported and the loop carries on with the next event. *)
Fixpoint run (es : list Event) (w : World) : list (Completion unit) * World :=
  match es with
  | [] => ([], w)
  | e :: es' =>
      let '(c, w1) := handle e w in
      let '(cs, w2) := run es' w1 in
      (c :: cs, w2)
  end.

(** ** Construction *)

(** What the constructor finds in the page. *)
Record Document := mkDocument {
  doc_slides : list Slide;
  doc_prevBtn : Button;
  doc_nextBtn : Button;
  doc_slideCounter : string;
  doc_progress : Width;
  doc_title : string
}.

(** The instance and the page as the constructor's assignments leave
    them: [currentSlide = 1], [totalSlides] the length of the collection,
    no timer pending. *)
Definition initial_world (d : Document) : World :=
  mkWorld 1 (Z.of_nat (length (doc_slides d)))
    (doc_slides d) (doc_prevBtn d) (doc_nextBtn d) (doc_slideCounter d)
    (doc_progress d) (doc_title d) 0 0 [] [].

Definition constructor (d : Document) : Completion unit * World :=
  (updateUI;;
   total ← gets totalSlides;
   console_log ("Slide deck initialized: " +:+ pretty total +:+ " slides loaded"))
    (initial_world d).

Definition sample_slides : list Slide :=
  [ mkSlide ["slide"; "active"] (Some "Intro");
    mkSlide ["slide"] None;
    mkSlide ["slide"] (Some "Market");
    mkSlide ["slide"] (Some "Pricing");
    mkSlide ["slide"] (Some "Summary") ].

Definition sample_document : Document :=
  mkDocument sample_slides (mkButton false "") (mkButton false "") "" (WidthInitial "0%") "Deck".

Definition empty_document : Document :=
  mkDocument [] (mkButton false "") (mkButton false "") "" (WidthInitial "0%") "Deck".

(** ** View-time tracker *)

Module SlideAnalytics.

(** What a property of [slideViewTimes] can hold: a number of
    milliseconds, or [NaN]. A property that was never written reads as
    [undefined], the [None] of the lookup. Property keys are the slide
    numbers. *)
Inductive Value :=
  | Ms (z : Z)
  | NotANumber.

Record t := mk {
  slideViewTimes : gmap Z Value;
  startTime : Z;
  currentSlideStartTime : Z
}.

(** The constructor reads the clock twice: [t0] and [t1] are the two
    results of [Date.now()], in program order. *)
Definition constructor (t0 t1 : Z) : t := mk ∅ t0 t1.

Definition truthy (v : option Value) : bool :=
  match v with
  | Some (Ms z) => negb (z =? 0)
  | Some NotANumber => false
  | None => false
  end.

(** [v + d] for a property value [v] and a number [d]. *)
Definition plus (v : option Value) (d : Z) : Value :=
  match v with
  | Some (Ms z) => Ms (z + d)
  | Some NotANumber => NotANumber
  | None => NotANumber
  end.

(** [now] is the result of the call's [Date.now()]. *)
Definition trackSlideChange (slideNumber now : Z) (a : t) : t :=
  let duration := now - currentSlideStartTime a in
  let times :=
    if negb (truthy (slideViewTimes a !! slideNumber))
    then <[slideNumber := Ms 0]> (slideViewTimes a)
    else slideViewTimes a in
  let times' := <[slideNumber := plus (times !! slideNumber) duration]> times in
  mk times' (startTime a) now.

Definition getReport (now : Z) (a : t) : Z * gmap Z Value :=
  (now - startTime a, slideViewTimes a).

(** The accumulated total of a slide number, an unseen one counting 0. *)
Definition accumulated (a : t) (n : Z) : Z :=
  match slideViewTimes a !! n with
  | Some (Ms z) => z
  | Some NotANumber => 0
  | None => 0
  end.

End SlideAnalytics.

(** ** Worlds that the methods produce, and the predicates on them *)

(** The world that [updateUI] leaves when the current slide exists. *)
Definition ui_projection (w : World) : World :=
  let cur := currentSlide w in
  let total := totalSlides w in
  let w1 :=
    set_nextBtn (if cur =? total then mkButton true "0.3" else mkButton false "1")
      (set_prevBtn (if cur =? 1 then mkButton true "0.3" else mkButton false "1")
         (set_progressBar (Percent (js_mul (js_div cur total) 100))
            (set_slideCounter (pretty cur +:+ " / " +:+ pretty total) w))) in
  match title_of (slides w) (Z.to_nat (cur - 1)) with
  | Some text => set_documentTitle (text +:+ title_suffix) w1
  | None => w1
  end.

(** What the immediate phase does to the class list of the slide being left. *)
Definition leave (forward : bool) (sl : Slide) : Slide :=
  if forward then slide_add "exit-left" (remove_tokens ["active"] sl)
  else remove_tokens ["active"] sl.

(** The world after the immediate phase of a call that passed the guard. *)
Definition after_exit_cue (n : Z) (w : World) : World :=
  set_timers (timers w ++ [mkTimer (Some (Z.to_nat (n - 1))) n 50])
    (set_slides (alter (leave (n >? currentSlide w)) (Z.to_nat (currentSlide w - 1))
                   (slides w)) w).

(** The world after the deferred phase for target [n]. *)
Definition after_commit (n : Z) (w : World) : World :=
  let w1 :=
    ui_projection
      (set_currentSlide n
         (set_slides (alter (slide_add "active") (Z.to_nat (n - 1))
                        (remove_tokens ["active"; "exit-left"] <$> slides w)) w)) in
  set_console
    (console w1 ++ ["Navigated to slide " +:+ pretty n +:+ "/" +:+ pretty (totalSlides w)])
    w1.

(** A pending timer was scheduled by a call that passed the range guard. *)
Definition timer_ok (total : Z) (t : Timer) : Prop :=
  1 <= slideNumber t <= total
  ∧ targetSlideElement t = Some (Z.to_nat (slideNumber t - 1))
  ∧ delay t = 50.

(** The invariant of the deck: [totalSlides] is the length of the slide
    collection, the current index is in range, and so is the target of
    every pending timer. *)
Definition wf (w : World) : Prop :=
  totalSlides w = Z.of_nat (length (slides w))
  ∧ 1 <= currentSlide w <= totalSlides w
  ∧ Forall (timer_ok (totalSlides w)) (timers w).

#[global] Instance timer_ok_dec total t : Decision (timer_ok total t).
Proof. unfold timer_ok. apply _. Defined.

#[global] Instance wf_dec w : Decision (wf w).
Proof. unfold wf. apply _. Defined.

(** [m] returns normally from [w], into a well-formed world with the
    same number of slides. *)
Definition returns_wf (m : JS unit) (w : World) : Prop :=
  ∃ w', m w = (Normal tt, w') ∧ wf w' ∧ totalSlides w' = totalSlides w.

(** The world that the constructor leaves on a page with slides. *)
Definition after_constructor (d : Document) : World :=
  let w1 := ui_projection (initial_world d) in
  set_console
    (console w1 ++
     ["Slide deck initialized: " +:+ pretty (Z.of_nat (length (doc_slides d))) +:+
      " slides loaded"]) w1.

(** A five-slide deck right after construction, and the same deck once
    slide 3, resp. slide 5, has been committed. *)
Definition deck5 : World := snd (constructor sample_document).
Definition deck5_at3 : World := snd (run [CallGoToSlide 3; TimerFires] deck5).
Definition deck5_at5 : World := snd (run [KeyDown "End"; TimerFires] deck5).

(** What the page shows for index [k]: the previous button is disabled
    exactly at [k = 1] and the next button exactly at [k = totalSlides], a
    disabled button is at opacity 0.3 and an enabled one at 1, the counter
    reads ["k / totalSlides"], and the progress bar is [k / totalSlides * 100]
    percent wide, the quotient and the product being the binary64 numbers
    that JavaScript computes. *)
Definition ui_shows (k : Z) (w : World) : Prop :=
  (disabled (prevBtn w) = true ↔ k = 1)
  ∧ (k = 1 → opacity (prevBtn w) = "0.3")
  ∧ (k ≠ 1 → disabled (prevBtn w) = false ∧ opacity (prevBtn w) = "1")
  ∧ (disabled (nextBtn w) = true ↔ k = totalSlides w)
  ∧ (k = totalSlides w → opacity (nextBtn w) = "0.3")
  ∧ (k ≠ totalSlides w → disabled (nextBtn w) = false ∧ opacity (nextBtn w) = "1")
  ∧ slideCounter w = pretty k +:+ " / " +:+ pretty (totalSlides w)
  ∧ progressBar w =
    Percent (SFmul prec emax
               (SFdiv prec emax (Z_to_number k) (Z_to_number (totalSlides w)))
               (Z_to_number 100)).

(** ** Accessors *)

Definition getCurrentSlideNumber : JS Z := gets currentSlide.

Definition getTotalSlides : JS Z := gets totalSlides.

(** ** The page around the deck *)

(** The part of the page that the script touches outside the deck:
    [window.slideDeck], the style of the body, the timer of the fade-in
    and the dialogs shown by [alert]. *)
Record Page := mkPage {
  world : World;
  slideDeckPublished : bool;
  bodyOpacity : string;
  bodyTransition : string;
  fadePending : bool;
  alerts : list string
}.

Definition set_world (v : World) (p : Page) : Page :=
  mkPage v (slideDeckPublished p) (bodyOpacity p) (bodyTransition p) (fadePending p)
    (alerts p).

Definition ready_lines : list string :=
  [ "GMC Acadia Korea Market Deck - Ready";
    "Navigation: Arrow keys, PageUp/PageDown, or click buttons";
    "Quick jump: Home (first slide), End (last slide)" ].

(** The listener of [DOMContentLoaded]. An exception of the constructor
    leaves the listener at once. [opacity0] and [transition0] are the
    styles the body had. *)
Definition onDOMContentLoaded (d : Document) (opacity0 transition0 : string)
  : Completion unit * Page :=
  match constructor d with
  | (Throw e, w) => (Throw e, mkPage w false opacity0 transition0 false [])
  | (Normal _, w) =>
      (Normal tt,
       mkPage (set_console (console w ++ ready_lines) w) true "0" transition0 true [])
  end.

Definition newline : string := String (Ascii.ascii_of_nat 10) EmptyString.

Definition help_text : string :=
  "Keyboard Shortcuts:" +:+ newline +:+ newline +:+
  "→ / Space / PageDown - Next slide" +:+ newline +:+
  "← / PageUp - Previous slide" +:+ newline +:+
  "Home - First slide" +:+ newline +:+
  "End - Last slide" +:+ newline +:+
  "? - Show this help".

(** The second [keydown] listener of the document. *)
Definition onHelpKey (key : string) (p : Page) : Page :=
  if bool_decide (key = "?")
  then mkPage (world p) (slideDeckPublished p) (bodyOpacity p) (bodyTransition p)
         (fadePending p) (alerts p ++ [help_text])
  else p.

(** The closure deferred by 100 ms in the [DOMContentLoaded] listener. *)
Definition fadeIn (p : Page) : Page :=
  mkPage (world p) (slideDeckPublished p) "1" "opacity 0.5s ease" false (alerts p).

Inductive PageEvent :=
  | DeckEvent (e : Event)
  | FadeTimerFires.

(** An event of the page: a key press reaches both [keydown] listeners;
    the fade-in and the timers of the deck touch disjoint state. *)
Definition page_handle (pe : PageEvent) (p : Page) : Completion unit * Page :=
  match pe with
  | FadeTimerFires => (Normal tt, if fadePending p then fadeIn p else p)
  | DeckEvent e =>
      let p1 := match e with
                | KeyDown key => onHelpKey key p
                | _ => p
                end in
      let '(c, w') := handle e (world p1) in
      (c, set_world w' p1)
  end.

Fixpoint page_run (pes : list PageEvent) (p : Page) : list (Completion unit) * Page :=
  match pes with
  | [] => ([], p)
  | pe :: pes' =>
      let '(c, p1) := page_handle pe p in
      let '(cs, p2) := page_run pes' p1 in
      (c :: cs, p2)
  end.

(** ** Sequences of tracker calls *)

Definition milliseconds (v : SlideAnalytics.Value) : Z :=
  match v with
  | SlideAnalytics.Ms z => z
  | SlideAnalytics.NotANumber => 0
  end.

Definition add_time (_ : Z) (v : SlideAnalytics.Value) (acc : Z) : Z :=
  milliseconds v + acc.

(** The sum of all the view times of a report. *)
Definition total_view_time (a : SlideAnalytics.t) : Z :=
  map_fold add_time 0 (SlideAnalytics.slideViewTimes a).

(** Calls [trackSlideChange(slideNumber)] in order, each with the clock
    reading of its [Date.now()]. *)
Fixpoint track_all (calls : list (Z * Z)) (a : SlideAnalytics.t) : SlideAnalytics.t :=
  match calls with
  | [] => a
  | (slideNumber, now) :: rest =>
      track_all rest (SlideAnalytics.trackSlideChange slideNumber now a)
  end.

(** The clock never runs backwards over the calls, starting from [t]. *)
Fixpoint clock_monotone (t : Z) (calls : list (Z * Z)) : Prop :=
  match calls with
  | [] => True
  | (_, now) :: rest => t <= now ∧ clock_monotone now rest
  end.

(** ** Predicates on slide collections *)

(** Two collections hold the same slides up to the two flags the deck
    toggles: same titles, same other classes. *)
Definition same_content (l l' : list Slide) : Prop :=
  Forall2 (λ a b, titleText a = titleText b
                  ∧ ∀ c, c ≠ "active" → c ≠ "exit-left" →
                         (c ∈ classList a ↔ c ∈ classList b)) l l'.

(** The page as authors write it: no slide but the first is marked
    active. *)
Definition only_first_active (l : list Slide) : Prop :=
  Forall (λ sl, "active" ∉ classList sl) (drop 1 l).

Definition first_active (l : list Slide) : Prop :=
  ∃ sl, l !! 0%nat = Some sl ∧ "active" ∈ classList sl.

Definition no_exit_flag (l : list Slide) : Prop :=
  Forall (λ sl, "exit-left" ∉ classList sl) l.

(** ** Further worlds and predicates *)

(** A call that is not a timer either leaves the world as it is or plays
    the exit cue of a slide number that passed the guard. *)
Definition quiet_step (w w' : World) : Prop :=
  w' = w ∨ ∃ n, 1 <= n <= totalSlides w ∧ w' = after_exit_cue n w.

Definition deck5_two_pending : World :=
  snd (run [CallGoToSlide 4; CallGoToSlide 2] deck5).

(** The world once [goToSlide(n)] has been called and its timer has fired. *)
Definition settled (n : Z) (w : World) : World :=
  after_commit n (set_timers [] (after_exit_cue n w)).

(** A change of a slide that only toggles the two flags. *)
Definition flags_only (f : Slide → Slide) : Prop :=
  ∀ sl, titleText (f sl) = titleText sl
        ∧ ∀ c, c ≠ "active" → c ≠ "exit-left" →
               (c ∈ classList (f sl) ↔ c ∈ classList sl).

#[global] Instance Event_eq_dec : EqDecision Event.
Proof. solve_decision. Defined.

#[global] Instance PageEvent_eq_dec : EqDecision PageEvent.
Proof. solve_decision. Defined.

(** ** The progress width, checked deck by deck *)




(** * Properties *)

(** ** Unfolding method bodies *)

Ltac js_unfold :=
  unfold mbind, mret, JS_bind, JS_ret, js_bind, js_ret, gets, modify, throw in *.

Ltac js_eval := js_unfold; cbn [fst snd].

(** ** Token lists *)

Lemma elem_of_token_remove tok c l : c ∈ token_remove tok l ↔ c ∈ l ∧ c ≠ tok.
Proof. unfold token_remove. rewrite list_elem_of_filter. tauto. Qed.

Lemma elem_of_token_add tok c l : c ∈ token_add tok l ↔ c ∈ l ∨ c = tok.
Proof.
  unfold token_add. case_decide as Hin.
  - split; [tauto | intros [?| ->]; done].
  - rewrite elem_of_app, list_elem_of_singleton. tauto.
Qed.

#[global] Arguments remove_tokens : simpl never.
#[global] Arguments slide_add : simpl never.

Lemma has_class_remove_tokens toks c sl :
  has_class c (remove_tokens toks sl) ↔ has_class c sl ∧ c ∉ toks.
Proof.
  unfold remove_tokens, has_class. revert sl.
  induction toks as [|tok toks IH]; intros sl; simpl.
  - rewrite elem_of_nil. tauto.
  - rewrite IH. simpl. rewrite elem_of_token_remove, not_elem_of_cons. tauto.
Qed.

Lemma has_class_slide_add tok c sl :
  has_class c (slide_add tok sl) ↔ has_class c sl ∨ c = tok.
Proof. unfold has_class, slide_add. simpl. apply elem_of_token_add. Qed.

Lemma titleText_remove_tokens toks sl : titleText (remove_tokens toks sl) = titleText sl.
Proof.
  unfold remove_tokens. revert sl.
  induction toks as [|tok toks IH]; intros sl; simpl; [done|]. by rewrite IH.
Qed.

(** ** Element references *)

Lemma item_Some (l : list Slide) (i : Z) :
  0 <= i < Z.of_nat (length l) → item l i = Some (Z.to_nat i).
Proof.
  intros [H0 H1]. unfold item.
  apply Z.leb_le in H0. apply Z.ltb_lt in H1. by rewrite H0, H1.
Qed.

Lemma item_None (l : list Slide) (i : Z) :
  i < 0 ∨ Z.of_nat (length l) <= i → item l i = None.
Proof.
  intros H. unfold item.
  destruct (0 <=? i) eqn:E0; [|done].
  destruct (i <? Z.of_nat (length l)) eqn:E1; [|done].
  apply Z.leb_le in E0. apply Z.ltb_lt in E1. lia.
Qed.

Lemma item_lookup (l : list Slide) (i : Z) :
  0 <= i < Z.of_nat (length l) → is_Some (l !! Z.to_nat i).
Proof. intros H. apply lookup_lt_is_Some. lia. Qed.

(** ** The UI projection *)

Lemma updateButtonStates_eq w :
  updateButtonStates w =
  (Normal tt,
   set_nextBtn (if currentSlide w =? totalSlides w
                then mkButton true "0.3" else mkButton false "1")
     (set_prevBtn (if currentSlide w =? 1
                   then mkButton true "0.3" else mkButton false "1") w)).
Proof.
  unfold updateButtonStates. js_eval.
  destruct (currentSlide w =? 1); cbn;
    destruct (currentSlide w =? totalSlides w); reflexivity.
Qed.

Lemma updateUI_eq w :
  0 <= currentSlide w - 1 < Z.of_nat (length (slides w)) →
  updateUI w = (Normal tt, ui_projection w).
Proof.
  intros Hcur. unfold updateUI, ui_projection, querySelector_title.
  js_eval. rewrite updateButtonStates_eq. cbn.
  rewrite (item_Some _ _ Hcur). cbn.
  destruct (title_of (slides w) (Z.to_nat (currentSlide w - 1))); reflexivity.
Qed.

Lemma updateUI_throws w :
  currentSlide w - 1 < 0 ∨ Z.of_nat (length (slides w)) <= currentSlide w - 1 →
  ∃ e w', updateUI w = (Throw e, w').
Proof.
  intros Hcur. unfold updateUI, querySelector_title.
  js_eval. rewrite updateButtonStates_eq. cbn.
  rewrite (item_None _ _ Hcur). cbn. eauto.
Qed.

Section UiProjectionFields.
Variable w : World.

Lemma ui_projection_currentSlide : currentSlide (ui_projection w) = currentSlide w.
Proof. unfold ui_projection. by destruct (title_of _ _). Qed.

Lemma ui_projection_totalSlides : totalSlides (ui_projection w) = totalSlides w.
Proof. unfold ui_projection. by destruct (title_of _ _). Qed.

Lemma ui_projection_slides : slides (ui_projection w) = slides w.
Proof. unfold ui_projection. by destruct (title_of _ _). Qed.

Lemma ui_projection_timers : timers (ui_projection w) = timers w.
Proof. unfold ui_projection. by destruct (title_of _ _). Qed.

Lemma ui_projection_console : console (ui_projection w) = console w.
Proof. unfold ui_projection. by destruct (title_of _ _). Qed.

Lemma ui_projection_prevBtn :
  prevBtn (ui_projection w) =
  if currentSlide w =? 1 then mkButton true "0.3" else mkButton false "1".
Proof. unfold ui_projection. by destruct (title_of _ _). Qed.

Lemma ui_projection_nextBtn :
  nextBtn (ui_projection w) =
  if currentSlide w =? totalSlides w then mkButton true "0.3" else mkButton false "1".
Proof. unfold ui_projection. by destruct (title_of _ _). Qed.

Lemma ui_projection_slideCounter :
  slideCounter (ui_projection w) =
  pretty (currentSlide w) +:+ " / " +:+ pretty (totalSlides w).
Proof. unfold ui_projection. by destruct (title_of _ _). Qed.

Lemma ui_projection_progressBar :
  progressBar (ui_projection w) =
  Percent (js_mul (js_div (currentSlide w) (totalSlides w)) 100).
Proof. unfold ui_projection. by destruct (title_of _ _). Qed.

Lemma ui_projection_documentTitle :
  documentTitle (ui_projection w) =
  match title_of (slides w) (Z.to_nat (currentSlide w - 1)) with
  | Some text => text +:+ title_suffix
  | None => documentTitle w
  end.
Proof. unfold ui_projection. by destruct (title_of _ _). Qed.
End UiProjectionFields.

(** ** The two phases of [goToSlide] *)

Lemma goToSlide_guard n w :
  n < 1 ∨ n > totalSlides w → goToSlide n w = (Normal tt, w).
Proof.
  intros Hn. unfold goToSlide. js_eval.
  assert ((n <? 1) || (n >? totalSlides w) = true) as ->; [|done].
  apply orb_true_iff. rewrite Z.ltb_lt, Z.gtb_gt. lia.
Qed.

Lemma goToSlide_pass n w :
  1 <= n <= totalSlides w →
  0 <= currentSlide w - 1 < Z.of_nat (length (slides w)) →
  totalSlides w = Z.of_nat (length (slides w)) →
  goToSlide n w = (Normal tt, after_exit_cue n w).
Proof.
  intros Hn Hcur Htot. unfold goToSlide, after_exit_cue. js_eval.
  assert ((n <? 1) || (n >? totalSlides w) = false) as ->.
  { apply orb_false_iff. rewrite Z.ltb_ge, Z.gtb_ltb, Z.ltb_ge. lia. }
  rewrite (item_Some _ _ Hcur).
  rewrite (item_Some (slides w) (n - 1)) by lia.
  unfold classList_remove, classList_add, setTimeout, deref, leave. js_eval.
  destruct (n >? currentSlide w); cbn; [|done].
  by rewrite list_alter_alter_eq.
Qed.

Lemma commit_eq t w :
  1 <= slideNumber t <= Z.of_nat (length (slides w)) →
  targetSlideElement t = Some (Z.to_nat (slideNumber t - 1)) →
  commit t w = (Normal tt, after_commit (slideNumber t) w).
Proof.
  intros Hn Htgt. unfold commit, after_commit, classList_add, deref, console_log.
  js_eval. rewrite Htgt. cbn.
  rewrite updateUI_eq.
  2:{ cbn. rewrite length_alter, length_fmap. lia. }
  cbn. by rewrite ui_projection_currentSlide, ui_projection_totalSlides.
Qed.

(** ** Well-formed worlds *)

Lemma wf_current_item w :
  wf w → 0 <= currentSlide w - 1 < Z.of_nat (length (slides w)).
Proof. intros (Htot & Hcur & _). lia. Qed.

Lemma wf_after_exit_cue n w :
  wf w → 1 <= n <= totalSlides w → wf (after_exit_cue n w).
Proof.
  intros (Htot & Hcur & Htm) Hn. unfold wf, after_exit_cue. cbn.
  rewrite length_alter. split_and!; [done|lia|lia|].
  apply Forall_app. split; [done|].
  apply Forall_singleton. unfold timer_ok. cbn. split_and!; [lia|lia|done|done].
Qed.

Lemma wf_after_commit n w :
  wf w → 1 <= n <= totalSlides w → wf (after_commit n w).
Proof.
  intros (Htot & Hcur & Htm) Hn. unfold wf, after_commit. cbn.
  rewrite ui_projection_totalSlides, ui_projection_slides,
    ui_projection_currentSlide, ui_projection_timers. cbn.
  by rewrite length_alter, length_fmap.
Qed.

Lemma wf_set_timers_tail t rest w :
  wf w → timers w = t :: rest → wf (set_timers rest w) ∧ timer_ok (totalSlides w) t.
Proof.
  intros (Htot & Hcur & Htm) Hq. rewrite Hq in Htm.
  apply Forall_cons in Htm as [Ht Hrest]. by unfold wf.
Qed.

(** ** Every handler keeps the world well formed and returns normally *)

Lemma goToSlide_returns n w : wf w → returns_wf (goToSlide n) w.
Proof.
  intros Hwf. unfold returns_wf.
  destruct (decide (1 <= n <= totalSlides w)) as [Hn|Hn].
  - exists (after_exit_cue n w). split_and!.
    + apply goToSlide_pass; [done|by apply wf_current_item|by destruct Hwf].
    + by apply wf_after_exit_cue.
    + done.
  - exists w. split_and!; [|done..]. apply goToSlide_guard. lia.
Qed.

Lemma nextSlide_returns w : wf w → returns_wf nextSlide w.
Proof.
  intros Hwf. unfold returns_wf, nextSlide. js_eval. cbv beta.
  destruct (currentSlide w <? totalSlides w).
  - by apply goToSlide_returns.
  - by exists w.
Qed.

Lemma previousSlide_returns w : wf w → returns_wf previousSlide w.
Proof.
  intros Hwf. unfold returns_wf, previousSlide. js_eval. cbv beta.
  destruct (currentSlide w >? 1).
  - by apply goToSlide_returns.
  - by exists w.
Qed.

Lemma handleSwipe_returns startX endX w : wf w → returns_wf (handleSwipe startX endX) w.
Proof.
  intros Hwf. unfold handleSwipe.
  destruct (Z.abs (startX - endX) >? swipeThreshold).
  - destruct (startX - endX >? 0);
      [by apply nextSlide_returns | by apply previousSlide_returns].
  - by exists w.
Qed.

Lemma onKeyDown_returns key w : wf w → returns_wf (onKeyDown key) w.
Proof.
  intros Hwf. unfold onKeyDown.
  repeat case_bool_decide.
  - by apply nextSlide_returns.
  - by apply previousSlide_returns.
  - by apply goToSlide_returns.
  - unfold returns_wf. js_eval. cbv beta. by apply goToSlide_returns.
  - by exists w.
Qed.

Lemma fireTimer_eq t rest w :
  wf w → timers w = t :: rest →
  fireTimer w = (Normal tt, after_commit (slideNumber t) (set_timers rest w)).
Proof.
  intros Hwf Hq. unfold fireTimer. rewrite Hq.
  destruct (wf_set_timers_tail _ _ _ Hwf Hq) as [_ (Hn & Htgt & _)].
  apply commit_eq; [|done]. cbn. destruct Hwf as (Htot & _). lia.
Qed.

Lemma fireTimer_returns w : wf w → returns_wf fireTimer w.
Proof.
  intros Hwf. destruct (timers w) as [|t rest] eqn:Hq.
  - exists w. unfold fireTimer. by rewrite Hq.
  - exists (after_commit (slideNumber t) (set_timers rest w)).
    destruct (wf_set_timers_tail _ _ _ Hwf Hq) as [Hwf' (Hn & _)].
    split_and!.
    + by apply fireTimer_eq.
    + by apply wf_after_commit.
    + unfold after_commit. cbn. by rewrite ui_projection_totalSlides.
Qed.

Lemma handle_returns e w : wf w → returns_wf (handle e) w.
Proof.
  intros Hwf. destruct e as [| |key|x|x| | | |n|startX endX]; cbn [handle].
  - by apply previousSlide_returns.
  - by apply nextSlide_returns.
  - by apply onKeyDown_returns.
  - by exists (set_touchStartX x w).
  - unfold returns_wf. js_eval. cbv beta. cbn.
    by apply (handleSwipe_returns _ _ (set_touchEndX x w)).
  - by apply fireTimer_returns.
  - by apply nextSlide_returns.
  - by apply previousSlide_returns.
  - by apply goToSlide_returns.
  - by apply handleSwipe_returns.
Qed.

Lemma run_returns es w :
  wf w →
  Forall (λ c, c = Normal tt) (fst (run es w)) ∧ wf (snd (run es w))
  ∧ totalSlides (snd (run es w)) = totalSlides w.
Proof.
  revert w. induction es as [|e es IH]; intros w Hwf; cbn [run].
  - by split_and!.
  - destruct (handle_returns e w Hwf) as (w1 & -> & Hwf1 & Htot1).
    specialize (IH w1 Hwf1). destruct (run es w1) as [cs w2]. cbn in *.
    destruct IH as (Hcs & Hwf2 & Htot2). split_and!; [|done|congruence].
    by constructor.
Qed.

Lemma doc_slides_length d : doc_slides d ≠ [] → 1 <= Z.of_nat (length (doc_slides d)).
Proof. destruct (doc_slides d); [done|]. cbn. lia. Qed.

Lemma constructor_eq d :
  doc_slides d ≠ [] → constructor d = (Normal tt, after_constructor d).
Proof.
  intros Hne%doc_slides_length. unfold constructor, after_constructor, console_log.
  js_eval. rewrite updateUI_eq by (cbn; lia).
  cbn. by rewrite ui_projection_totalSlides.
Qed.

Lemma wf_after_constructor d : doc_slides d ≠ [] → wf (after_constructor d).
Proof.
  intros Hne%doc_slides_length. unfold wf, after_constructor. cbn.
  rewrite ui_projection_totalSlides, ui_projection_slides,
    ui_projection_currentSlide, ui_projection_timers. cbn.
  split_and!; [done|lia|lia|constructor].
Qed.

(** ** Sample worlds are well formed *)

Ltac by_computation := apply (bool_decide_unpack _); vm_compute; exact I.

Lemma wf_deck5 : wf deck5.
Proof. by_computation. Qed.

Lemma wf_deck5_at3 : wf deck5_at3.
Proof. by_computation. Qed.

Lemma wf_deck5_at5 : wf deck5_at5.
Proof. by_computation. Qed.

(** ** Navigation *)

Lemma after_commit_slides n w :
  slides (after_commit n w) =
  alter (slide_add "active") (Z.to_nat (n - 1))
    (remove_tokens ["active"; "exit-left"] <$> slides w).
Proof. unfold after_commit. cbn. by rewrite ui_projection_slides. Qed.

Lemma after_commit_currentSlide n w : currentSlide (after_commit n w) = n.
Proof. unfold after_commit. cbn. by rewrite ui_projection_currentSlide. Qed.

Lemma after_commit_totalSlides n w : totalSlides (after_commit n w) = totalSlides w.
Proof. unfold after_commit. cbn. by rewrite ui_projection_totalSlides. Qed.

Lemma after_commit_timers n w : timers (after_commit n w) = timers w.
Proof. unfold after_commit. cbn. by rewrite ui_projection_timers. Qed.

Lemma after_commit_console n w :
  console (after_commit n w) =
  console w ++ ["Navigated to slide " +:+ pretty n +:+ "/" +:+ pretty (totalSlides w)].
Proof. unfold after_commit. cbn. by rewrite ui_projection_console. Qed.

(** After a commit the target, and only the target, is active; no slide
    keeps the exit treatment. *)
Lemma after_commit_flags n w i sl :
  slides (after_commit n w) !! i = Some sl →
  (has_class "active" sl ↔ i = Z.to_nat (n - 1)) ∧ ¬ has_class "exit-left" sl.
Proof.
  rewrite after_commit_slides. intros Hi.
  destruct (decide (i = Z.to_nat (n - 1))) as [->|Hne].
  - rewrite list_lookup_alter_eq, list_lookup_fmap in Hi.
    destruct (slides w !! Z.to_nat (n - 1)) as [sl0|]; [|done].
    cbn in Hi. injection Hi as <-.
    rewrite !has_class_slide_add, !has_class_remove_tokens.
    split; [tauto|]. intros [[_ Hin]|Heq]; [|done].
    apply Hin. set_solver.
  - rewrite list_lookup_alter_ne, list_lookup_fmap in Hi by done.
    destruct (slides w !! i) as [sl0|]; [|done].
    cbn in Hi. injection Hi as <-.
    rewrite !has_class_remove_tokens.
    split; [split; [|done]|]; intros [_ Hin]; exfalso; apply Hin; set_solver.
Qed.

Lemma after_commit_target n w :
  1 <= n <= Z.of_nat (length (slides w)) →
  is_Some (slides (after_commit n w) !! Z.to_nat (n - 1)).
Proof.
  intros Hn. apply lookup_lt_is_Some.
  rewrite after_commit_slides, length_alter, length_fmap. lia.
Qed.

(** C1. In a well-formed deck with no navigation pending, for every [n]
    with [1 <= n <= totalSlides], the call [goToSlide(n)] followed by the
    firing of its timer returns normally twice, leaves [currentSlide = n],
    nothing pending, and the slide at position [n-1] exists and is the one
    and only slide carrying ['active']. *)
Theorem goToSlide_reaches_target (w : World) (n : Z) :
  wf w → timers w = [] → 1 <= n <= totalSlides w →
  ∃ w', run [CallGoToSlide n; TimerFires] w = ([Normal tt; Normal tt], w')
        ∧ currentSlide w' = n
        ∧ timers w' = []
        ∧ is_Some (slides w' !! Z.to_nat (n - 1))
        ∧ ∀ i sl, slides w' !! i = Some sl →
                  (has_class "active" sl ↔ i = Z.to_nat (n - 1)).
Proof.
  intros Hwf Hq Hn.
  pose proof (wf_after_exit_cue n w Hwf Hn) as Hwf1.
  assert (timers (after_exit_cue n w) = [mkTimer (Some (Z.to_nat (n - 1))) n 50]) as Hq1.
  { unfold after_exit_cue. cbn. by rewrite Hq. }
  exists (after_commit n (set_timers [] (after_exit_cue n w))).
  split_and!.
  - cbn [run handle].
    rewrite goToSlide_pass;
      [|done|by apply wf_current_item|by destruct Hwf].
    by rewrite (fireTimer_eq _ _ _ Hwf1 Hq1).
  - apply after_commit_currentSlide.
  - by rewrite after_commit_timers.
  - apply after_commit_target. cbn. rewrite length_alter.
    destruct Hwf as (Htot & _). lia.
  - intros i sl Hi. by apply after_commit_flags in Hi as [? _].
Qed.

Lemma goToSlide_reaches_target_witness :
  wf deck5 ∧ timers deck5 = [] ∧ 1 <= 4 <= totalSlides deck5
  ∧ ∃ w', run [CallGoToSlide 4; TimerFires] deck5 = ([Normal tt; Normal tt], w')
          ∧ currentSlide w' = 4
          ∧ timers w' = []
          ∧ is_Some (slides w' !! Z.to_nat (4 - 1))
          ∧ ∀ i sl, slides w' !! i = Some sl →
                    (has_class "active" sl ↔ i = Z.to_nat (4 - 1)).
Proof.
  assert (wf deck5) as Hwf by by_computation.
  assert (timers deck5 = []) as Hq by reflexivity.
  assert (1 <= 4 <= totalSlides deck5) as Hn by (vm_compute; split; discriminate).
  split_and!; [done..|].
  exact (goToSlide_reaches_target deck5 4 Hwf Hq Hn).
Defined.

(** C2. For every [n] with [n < 1] or [n > totalSlides], [goToSlide(n)]
    returns normally and the world is the one it started from: the current
    index, every class list, the counter, the progress bar, both buttons,
    the title and the timer queue are untouched. *)
Theorem goToSlide_out_of_range_noop (w : World) (n : Z) :
  n < 1 ∨ n > totalSlides w →
  goToSlide n w = (Normal tt, w)
  ∧ let w' := snd (goToSlide n w) in
    currentSlide w' = currentSlide w
    ∧ slides w' = slides w
    ∧ slideCounter w' = slideCounter w
    ∧ progressBar w' = progressBar w
    ∧ prevBtn w' = prevBtn w
    ∧ nextBtn w' = nextBtn w
    ∧ documentTitle w' = documentTitle w
    ∧ timers w' = timers w.
Proof. intros Hn. by rewrite (goToSlide_guard n w Hn). Qed.

Lemma goToSlide_out_of_range_noop_witness :
  (6 < 1 ∨ 6 > totalSlides deck5) ∧ goToSlide 6 deck5 = (Normal tt, deck5).
Proof.
  assert (6 < 1 ∨ 6 > totalSlides deck5) as Hn by (right; reflexivity).
  split; [done|]. exact (proj1 (goToSlide_out_of_range_noop deck5 6 Hn)).
Defined.

(** C4. [nextSlide()] is [goToSlide(currentSlide + 1)] when
    [currentSlide < totalSlides] and changes nothing when
    [currentSlide = totalSlides]; [previousSlide()] is
    [goToSlide(currentSlide - 1)] when [currentSlide > 1] and changes
    nothing when [currentSlide = 1]. Neither no-op throws. *)
Theorem nextSlide_previousSlide_saturate (w : World) :
  (currentSlide w < totalSlides w → nextSlide w = goToSlide (currentSlide w + 1) w)
  ∧ (currentSlide w = totalSlides w → nextSlide w = (Normal tt, w))
  ∧ (currentSlide w > 1 → previousSlide w = goToSlide (currentSlide w - 1) w)
  ∧ (currentSlide w = 1 → previousSlide w = (Normal tt, w)).
Proof.
  unfold nextSlide, previousSlide. js_eval. split_and!; intros H.
  - by apply Z.ltb_lt in H as ->.
  - by rewrite H, Z.ltb_irrefl.
  - assert ((currentSlide w >? 1) = true) as ->; [|done].
    rewrite Z.gtb_ltb. apply Z.ltb_lt. lia.
  - by rewrite H.
Qed.

Lemma nextSlide_previousSlide_saturate_witness :
  (currentSlide deck5 < totalSlides deck5 ∧ nextSlide deck5 = goToSlide 2 deck5)
  ∧ (currentSlide deck5_at5 = totalSlides deck5_at5
     ∧ nextSlide deck5_at5 = (Normal tt, deck5_at5))
  ∧ (currentSlide deck5_at3 > 1 ∧ previousSlide deck5_at3 = goToSlide 2 deck5_at3)
  ∧ (currentSlide deck5 = 1 ∧ previousSlide deck5 = (Normal tt, deck5)).
Proof.
  assert (currentSlide deck5 < totalSlides deck5) as H1 by reflexivity.
  assert (currentSlide deck5_at5 = totalSlides deck5_at5) as H2 by reflexivity.
  assert (currentSlide deck5_at3 > 1) as H3 by reflexivity.
  assert (currentSlide deck5 = 1) as H4 by reflexivity.
  split_and!; [done| |done| |done| |done|].
  - exact (proj1 (nextSlide_previousSlide_saturate deck5) H1).
  - exact (proj1 (proj2 (nextSlide_previousSlide_saturate deck5_at5)) H2).
  - exact (proj1 (proj2 (proj2 (nextSlide_previousSlide_saturate deck5_at3))) H3).
  - exact (proj2 (proj2 (proj2 (nextSlide_previousSlide_saturate deck5))) H4).
Defined.

(** C6. For all [startX] and [endX]: when [|startX - endX| <= 50],
    [handleSwipe] returns with the world unchanged (so the current index is
    unchanged and nothing is scheduled); when [startX - endX > 50] it is
    exactly [nextSlide()]; when [startX - endX < -50] it is exactly
    [previousSlide()]. *)
Theorem handleSwipe_threshold (w : World) (startX endX : Z) :
  (Z.abs (startX - endX) <= 50 → handleSwipe startX endX w = (Normal tt, w))
  ∧ (startX - endX > 50 → handleSwipe startX endX w = nextSlide w)
  ∧ (startX - endX < -50 → handleSwipe startX endX w = previousSlide w).
Proof.
  unfold handleSwipe, swipeThreshold. split_and!; intros H.
  - assert ((Z.abs (startX - endX) >? 50) = false) as ->; [|done].
    rewrite Z.gtb_ltb. apply Z.ltb_ge. lia.
  - assert ((Z.abs (startX - endX) >? 50) = true) as ->.
    { rewrite Z.gtb_ltb. apply Z.ltb_lt. lia. }
    assert ((startX - endX >? 0) = true) as ->; [|done].
    rewrite Z.gtb_ltb. apply Z.ltb_lt. lia.
  - assert ((Z.abs (startX - endX) >? 50) = true) as ->.
    { rewrite Z.gtb_ltb. apply Z.ltb_lt. lia. }
    assert ((startX - endX >? 0) = false) as ->; [|done].
    rewrite Z.gtb_ltb. apply Z.ltb_ge. lia.
Qed.

Lemma handleSwipe_threshold_witness :
  (Z.abs (150 - 100) <= 50 ∧ handleSwipe 150 100 deck5_at3 = (Normal tt, deck5_at3))
  ∧ (200 - 100 > 50 ∧ handleSwipe 200 100 deck5_at3 = nextSlide deck5_at3)
  ∧ (100 - 200 < -50 ∧ handleSwipe 100 200 deck5_at3 = previousSlide deck5_at3).
Proof.
  assert (Z.abs (150 - 100) <= 50) as H1 by (vm_compute; discriminate).
  assert (200 - 100 > 50) as H2 by reflexivity.
  assert (100 - 200 < -50) as H3 by reflexivity.
  split_and!; [done| |done| |done|].
  - exact (proj1 (handleSwipe_threshold deck5_at3 150 100) H1).
  - exact (proj1 (proj2 (handleSwipe_threshold deck5_at3 200 100)) H2).
  - exact (proj2 (proj2 (handleSwipe_threshold deck5_at3 100 200)) H3).
Defined.

(** ** UI projections *)

Lemma ui_projection_shows w :
  totalSlides w ≠ 0 → ui_shows (currentSlide w) (ui_projection w).
Proof.
  intros Htot. unfold ui_shows.
  rewrite ui_projection_prevBtn, ui_projection_nextBtn, ui_projection_slideCounter,
    ui_projection_progressBar, ui_projection_totalSlides.
  unfold js_mul, js_div.
  destruct (Z.eqb_spec (currentSlide w) 1) as [H1|H1];
    destruct (Z.eqb_spec (currentSlide w) (totalSlides w)) as [Hn|Hn];
    cbn; split_and!; try done; by intros.
Qed.

Lemma after_commit_shows n w : totalSlides w ≠ 0 → ui_shows n (after_commit n w).
Proof.
  intros Htot. unfold after_commit.
  set (w0 := set_currentSlide n _).
  pose proof (ui_projection_shows w0 Htot) as Hshow.
  unfold ui_shows in *. cbn in *. exact Hshow.
Qed.

(** C5. The initial projection of the constructor, on a deck with at
    least one slide, shows index 1; and whenever a pending navigation
    commits its index [k], the page shows [k]: previous button disabled at
    opacity 0.3 iff [k = 1], next button disabled at opacity 0.3 iff
    [k = totalSlides], each otherwise enabled at opacity 1, counter text
    ["k / totalSlides"], progress width [k / totalSlides * 100] percent,
    where the division and the multiplication are those of binary64
    numbers, rounding included. *)
Theorem navigation_projects_ui :
  (∀ d : Document,
     doc_slides d ≠ [] →
     ∃ w, constructor d = (Normal tt, w) ∧ currentSlide w = 1 ∧ ui_shows 1 w)
  ∧ (∀ (w : World) (t : Timer) (rest : list Timer),
       wf w → timers w = t :: rest →
       ∃ w', fireTimer w = (Normal tt, w')
             ∧ currentSlide w' = slideNumber t
             ∧ ui_shows (slideNumber t) w').
Proof.
  split.
  - intros d Hne. exists (after_constructor d). split_and!.
    + by apply constructor_eq.
    + unfold after_constructor. cbn. by rewrite ui_projection_currentSlide.
    + pose proof (doc_slides_length d Hne) as Hlen.
      assert (totalSlides (initial_world d) ≠ 0) as Htot by (cbn; lia).
      pose proof (ui_projection_shows (initial_world d) Htot) as Hshow.
      unfold after_constructor, ui_shows in *. cbn in *. exact Hshow.
  - intros w t rest Hwf Hq.
    exists (after_commit (slideNumber t) (set_timers rest w)). split_and!.
    + by apply fireTimer_eq.
    + apply after_commit_currentSlide.
    + apply after_commit_shows. cbn. destruct Hwf as (_ & Hcur & _). lia.
Qed.

Lemma navigation_projects_ui_witness :
  (sample_slides ≠ []
   ∧ ∃ w, constructor sample_document = (Normal tt, w)
          ∧ currentSlide w = 1 ∧ ui_shows 1 w)
  ∧ (wf (snd (goToSlide 5 deck5))
     ∧ timers (snd (goToSlide 5 deck5)) = [mkTimer (Some 4%nat) 5 50]
     ∧ ∃ w', fireTimer (snd (goToSlide 5 deck5)) = (Normal tt, w')
             ∧ currentSlide w' = 5 ∧ ui_shows 5 w').
Proof.
  assert (doc_slides sample_document ≠ []) as Hne by discriminate.
  assert (wf (snd (goToSlide 5 deck5))) as Hwf by by_computation.
  assert (timers (snd (goToSlide 5 deck5)) = [mkTimer (Some 4%nat) 5 50]) as Hq
    by reflexivity.
  split; (split; [done|]).
  - exact (proj1 navigation_projects_ui sample_document Hne).
  - split; [done|].
    exact (proj2 navigation_projects_ui _ _ _ Hwf Hq).
Defined.

(** ** The exit cue *)

Lemma classList_leave forward sl :
  classList (leave forward sl) =
  if forward then token_add "exit-left" (token_remove "active" (classList sl))
  else token_remove "active" (classList sl).
Proof. by destruct forward. Qed.

(** C7. In a call [goToSlide(n)] that passes the guard, the slide being
    left loses ['active'] at once, while the commit is still pending and
    [currentSlide] is unchanged; ['exit-left'] is added to it when
    [n > currentSlide] and nothing is added when [n <= currentSlide], so
    that afterwards it carries ['exit-left'] iff the motion was forward or
    it carried the flag already. No other slide is touched. *)
Theorem goToSlide_exit_treatment (w : World) (n : Z) :
  wf w → 1 <= n <= totalSlides w →
  let idx := Z.to_nat (currentSlide w - 1) in
  ∃ before after w',
    goToSlide n w = (Normal tt, w')
    ∧ slides w !! idx = Some before
    ∧ slides w' !! idx = Some after
    ∧ (∀ j, j ≠ idx → slides w' !! j = slides w !! j)
    ∧ currentSlide w' = currentSlide w
    ∧ timers w' = timers w ++ [mkTimer (Some (Z.to_nat (n - 1))) n 50]
    ∧ ¬ has_class "active" after
    ∧ (n > currentSlide w →
       classList after = token_add "exit-left" (token_remove "active" (classList before)))
    ∧ (n <= currentSlide w →
       classList after = token_remove "active" (classList before))
    ∧ (has_class "exit-left" after ↔
       n > currentSlide w ∨ has_class "exit-left" before).
Proof.
  intros Hwf Hn idx.
  pose proof (wf_current_item w Hwf) as Hcur.
  destruct (item_lookup _ _ Hcur) as [before Hbefore]. fold idx in Hbefore.
  exists before, (leave (n >? currentSlide w) before), (after_exit_cue n w).
  assert (classList (leave (n >? currentSlide w) before) =
          if n >? currentSlide w
          then token_add "exit-left" (token_remove "active" (classList before))
          else token_remove "active" (classList before)) as Hcl
    by apply classList_leave.
  split_and!.
  - apply goToSlide_pass; [done..|by destruct Hwf].
  - done.
  - unfold after_exit_cue. cbn. fold idx.
    by rewrite list_lookup_alter_eq, Hbefore.
  - intros j Hj. unfold after_exit_cue. cbn. fold idx.
    by rewrite list_lookup_alter_ne.
  - done.
  - done.
  - unfold has_class. rewrite Hcl.
    destruct (n >? currentSlide w);
      rewrite ?elem_of_token_add, elem_of_token_remove; intros H;
      destruct_or?; destruct_and?; done.
  - intros Hgt. rewrite Hcl.
    assert ((n >? currentSlide w) = true) as ->; [|done].
    rewrite Z.gtb_ltb. apply Z.ltb_lt. lia.
  - intros Hle. rewrite Hcl.
    assert ((n >? currentSlide w) = false) as ->; [|done].
    rewrite Z.gtb_ltb. apply Z.ltb_ge. lia.
  - unfold has_class. rewrite Hcl.
    destruct (Z.gtb_spec n (currentSlide w)) as [Hgt|Hle].
    + rewrite elem_of_token_add. split; [intros _; left; lia|by right].
    + rewrite elem_of_token_remove. split.
      * intros [? _]. by right.
      * intros [?|?]; [lia|done].
Qed.

Lemma goToSlide_exit_treatment_witness :
  wf deck5_at3 ∧ 1 <= 4 <= totalSlides deck5_at3
  ∧ ∃ before after w',
      goToSlide 4 deck5_at3 = (Normal tt, w')
      ∧ slides deck5_at3 !! 2%nat = Some before
      ∧ slides w' !! 2%nat = Some after
      ∧ (∀ j, j ≠ 2%nat → slides w' !! j = slides deck5_at3 !! j)
      ∧ currentSlide w' = currentSlide deck5_at3
      ∧ timers w' = timers deck5_at3 ++ [mkTimer (Some (Z.to_nat (4 - 1))) 4 50]
      ∧ ¬ has_class "active" after
      ∧ (4 > currentSlide deck5_at3 →
         classList after =
         token_add "exit-left" (token_remove "active" (classList before)))
      ∧ (4 <= currentSlide deck5_at3 →
         classList after = token_remove "active" (classList before))
      ∧ (has_class "exit-left" after ↔
         4 > currentSlide deck5_at3 ∨ has_class "exit-left" before).
Proof.
  assert (wf deck5_at3) as Hwf by by_computation.
  assert (1 <= 4 <= totalSlides deck5_at3) as Hn by (vm_compute; split; discriminate).
  split_and!; [done..|].
  exact (goToSlide_exit_treatment deck5_at3 4 Hwf Hn).
Defined.

Lemma drain_to_last_commit ts :
  ∀ w last_timer,
    wf w → timers w = ts → last ts = Some last_timer →
    ∃ w_prev,
      wf w_prev ∧ totalSlides w_prev = totalSlides w
      ∧ run (replicate (length ts) TimerFires) w =
        (replicate (length ts) (Normal tt),
         after_commit (slideNumber last_timer) (set_timers [] w_prev)).
Proof.
  induction ts as [|t rest IH]; intros w lt Hwf Hq Hlast; [done|].
  cbn [length replicate run handle].
  rewrite (fireTimer_eq _ _ _ Hwf Hq).
  destruct (wf_set_timers_tail _ _ _ Hwf Hq) as [Hwf' (Hn & _)].
  destruct rest as [|t' rest'].
  - cbn in Hlast. injection Hlast as <-. by exists w.
  - assert (last (t' :: rest') = Some lt) as Hlast' by done.
    pose proof (wf_after_commit (slideNumber t) _ Hwf' Hn) as Hwf1.
    pose proof (after_commit_timers (slideNumber t) (set_timers (t' :: rest') w)) as Hq1.
    pose proof (after_commit_totalSlides (slideNumber t) (set_timers (t' :: rest') w))
      as Ht1.
    remember (after_commit (slideNumber t) (set_timers (t' :: rest') w)) as w1 eqn:Hw1.
    clear Hw1.
    destruct (IH w1 lt Hwf1 Hq1 Hlast') as (w_prev & Hwfp & Htp & ->).
    exists w_prev. split; [done|]. split; [by rewrite Htp, Ht1|done].
Qed.

(** C10. [goToSlide(currentSlide)] on a well-formed deck is not a
    no-op, whatever is pending. It passes the guard and schedules a timer
    behind the pending ones; the motion counts as backward, so the current
    slide loses ['active'] and gets no exit treatment. When the pending
    timers and then this one have fired, the same slide is the one active
    slide, the UI projection has been recomputed for the same index, the
    last line logged is this navigation, and [currentSlide] is what it was
    at the call. With nothing pending before the call, one firing
    suffices. *)
Theorem goToSlide_current_is_not_noop (w : World) :
  wf w →
  let n := currentSlide w in
  let idx := Z.to_nat (n - 1) in
  let line := "Navigated to slide " +:+ pretty n +:+ "/" +:+ pretty (totalSlides w) in
  ∃ before w1 w2,
    slides w !! idx = Some before
    ∧ goToSlide n w = (Normal tt, w1)
    ∧ w1 ≠ w
    ∧ timers w1 = timers w ++ [mkTimer (Some idx) n 50]
    ∧ slides w1 = <[idx := slide_remove "active" before]> (slides w)
    ∧ currentSlide w1 = n
    ∧ run (replicate (length (timers w1)) TimerFires) w1 =
      (replicate (length (timers w1)) (Normal tt), w2)
    ∧ currentSlide w2 = n
    ∧ timers w2 = []
    ∧ (∀ i sl, slides w2 !! i = Some sl → (has_class "active" sl ↔ i = idx))
    ∧ is_Some (slides w2 !! idx)
    ∧ ui_shows n w2
    ∧ last (console w2) = Some line
    ∧ (timers w = [] →
       fireTimer w1 = (Normal tt, w2)
       ∧ w2 = after_commit n (set_timers [] w1)
       ∧ console w2 = console w ++ [line]).
Proof.
  intros Hwf n idx line.
  pose proof (wf_current_item w Hwf) as Hcur.
  destruct (item_lookup _ _ Hcur) as [before Hbefore]. fold n idx in Hbefore.
  assert (1 <= n <= totalSlides w) as Hn by (destruct Hwf as (_ & ? & _); done).
  pose proof (wf_after_exit_cue n w Hwf Hn) as Hwf1.
  assert (timers (after_exit_cue n w) = timers w ++ [mkTimer (Some idx) n 50]) as Hq1
    by reflexivity.
  assert (slides (after_exit_cue n w) = <[idx := slide_remove "active" before]> (slides w))
    as Hsl1.
  { unfold after_exit_cue. cbn. fold n idx.
    assert ((n >? n) = false) as -> by (rewrite Z.gtb_ltb; apply Z.ltb_irrefl).
    apply list_eq. intros j. destruct (decide (j = idx)) as [->|Hj].
    + rewrite list_lookup_alter_eq, Hbefore.
      rewrite list_lookup_insert_eq by (by eapply lookup_lt_Some). done.
    + by rewrite list_lookup_alter_ne, list_lookup_insert_ne. }
  assert (goToSlide n w = (Normal tt, after_exit_cue n w)) as Hgo
    by (apply goToSlide_pass; [done..|by destruct Hwf]).
  assert (totalSlides (after_exit_cue n w) = totalSlides w) as Ht1 by reflexivity.
  assert (currentSlide (after_exit_cue n w) = n) as Hc1 by reflexivity.
  assert (console (after_exit_cue n w) = console w) as Hco1 by reflexivity.
  remember (after_exit_cue n w) as w1 eqn:Hw1.
  assert (last (timers w1) = Some (mkTimer (Some idx) n 50)) as Hlast
    by (rewrite Hq1; apply last_snoc).
  destruct (drain_to_last_commit (timers w1) w1 _ Hwf1 eq_refl Hlast)
    as (w_prev & Hwfp & Htp & Hrun).
  cbn [slideNumber] in Hrun.
  assert (totalSlides w_prev = totalSlides w) as Htp' by congruence.
  pose proof Hwfp as (Hlenp & _ & _).
  assert (w1 ≠ w) as Hneq.
  { intros Heq. rewrite Heq in Hq1.
    apply (f_equal length) in Hq1. rewrite length_app in Hq1. cbn in Hq1. lia. }
  exists before, w1, (after_commit n (set_timers [] w_prev)).
  split; [exact Hbefore|]. split; [exact Hgo|]. split; [exact Hneq|].
  split; [exact Hq1|]. split; [exact Hsl1|]. split; [exact Hc1|].
  split; [exact Hrun|].
  split; [apply after_commit_currentSlide|].
  split; [by rewrite after_commit_timers|].
  split; [intros i sl Hi; by apply after_commit_flags in Hi as [? _]|].
  split; [apply after_commit_target; cbn; lia|].
  split; [apply after_commit_shows; cbn; lia|].
  split.
  { rewrite after_commit_console. cbn [console set_timers totalSlides].
    unfold line. rewrite Htp'. apply last_snoc. }
  intros Hq. rewrite Hq in Hq1. cbn [app] in Hq1.
  pose proof (fireTimer_eq _ _ _ Hwf1 Hq1) as Hfire. cbn [slideNumber] in Hfire.
  rewrite Hq1 in Hrun. cbn [length replicate run handle] in Hrun.
  rewrite Hfire in Hrun. apply (f_equal snd) in Hrun. cbn [snd] in Hrun.
  rename Hrun into Hw2.
  split; [by rewrite Hfire, Hw2|]. split; [by rewrite Hw2|].
  rewrite <- Hw2, after_commit_console. cbn [console set_timers totalSlides].
  by rewrite Hco1, Ht1.
Qed.

Lemma goToSlide_current_is_not_noop_witness :
  wf deck5_two_pending
  ∧ ∃ before w1 w2,
      slides deck5_two_pending !! 0%nat = Some before
      ∧ goToSlide 1 deck5_two_pending = (Normal tt, w1)
      ∧ w1 ≠ deck5_two_pending
      ∧ timers w1 = timers deck5_two_pending ++ [mkTimer (Some 0%nat) 1 50]
      ∧ slides w1 = <[0%nat := slide_remove "active" before]> (slides deck5_two_pending)
      ∧ currentSlide w1 = 1
      ∧ run (replicate (length (timers w1)) TimerFires) w1 =
        (replicate (length (timers w1)) (Normal tt), w2)
      ∧ currentSlide w2 = 1
      ∧ timers w2 = []
      ∧ (∀ i sl, slides w2 !! i = Some sl → (has_class "active" sl ↔ i = 0%nat))
      ∧ is_Some (slides w2 !! 0%nat)
      ∧ ui_shows 1 w2
      ∧ last (console w2) = Some ("Navigated to slide " +:+ pretty 1 +:+ "/" +:+ pretty 5)
      ∧ (timers deck5_two_pending = [] →
         fireTimer w1 = (Normal tt, w2)
         ∧ w2 = after_commit 1 (set_timers [] w1)
         ∧ console w2 =
           console deck5_two_pending ++
           ["Navigated to slide " +:+ pretty 1 +:+ "/" +:+ pretty 5]).
Proof.
  assert (wf deck5_two_pending) as Hwf by by_computation.
  split; [exact Hwf|].
  exact (goToSlide_current_is_not_noop deck5_two_pending Hwf).
Defined.

(** ** The range invariant *)

Lemma goToSlide_index n w : wf w → currentSlide (snd (goToSlide n w)) = currentSlide w.
Proof.
  intros Hwf. destruct (decide (1 <= n <= totalSlides w)) as [Hn|Hn].
  - by rewrite goToSlide_pass;
      [|done|by apply wf_current_item|by destruct Hwf].
  - by rewrite goToSlide_guard by lia.
Qed.

Lemma nextSlide_index w : wf w → currentSlide (snd (nextSlide w)) = currentSlide w.
Proof.
  intros Hwf. unfold nextSlide. js_eval.
  destruct (currentSlide w <? totalSlides w); [by apply goToSlide_index|done].
Qed.

Lemma previousSlide_index w : wf w → currentSlide (snd (previousSlide w)) = currentSlide w.
Proof.
  intros Hwf. unfold previousSlide. js_eval.
  destruct (currentSlide w >? 1); [by apply goToSlide_index|done].
Qed.

Lemma handleSwipe_index startX endX w :
  wf w → currentSlide (snd (handleSwipe startX endX w)) = currentSlide w.
Proof.
  intros Hwf. unfold handleSwipe.
  destruct (Z.abs (startX - endX) >? swipeThreshold); [|done].
  destruct (startX - endX >? 0);
    [by apply nextSlide_index | by apply previousSlide_index].
Qed.

Lemma onKeyDown_index key w : wf w → currentSlide (snd (onKeyDown key w)) = currentSlide w.
Proof.
  intros Hwf. unfold onKeyDown. repeat case_bool_decide.
  - by apply nextSlide_index.
  - by apply previousSlide_index.
  - by apply goToSlide_index.
  - js_eval. by apply goToSlide_index.
  - done.
Qed.

(** Only the firing of a timer assigns [currentSlide], and it assigns the
    number that the timer's call checked against the range. *)
Lemma handle_index e w :
  wf w →
  currentSlide (snd (handle e w)) = currentSlide w
  ∨ (e = TimerFires
     ∧ ∃ t rest, timers w = t :: rest
                 ∧ 1 <= slideNumber t <= totalSlides w
                 ∧ currentSlide (snd (handle e w)) = slideNumber t).
Proof.
  intros Hwf. destruct e as [| |key|x|x| | | |n|startX endX]; cbn [handle].
  - left. by apply previousSlide_index.
  - left. by apply nextSlide_index.
  - left. by apply onKeyDown_index.
  - by left.
  - left. js_eval. cbn. by apply (handleSwipe_index _ _ (set_touchEndX x w)).
  - destruct (timers w) as [|t rest] eqn:Hq.
    + left. unfold fireTimer. by rewrite Hq.
    + right. split; [done|]. exists t, rest.
      destruct (wf_set_timers_tail _ _ _ Hwf Hq) as [_ (Hn & _)].
      split; [done|]. split; [exact Hn|].
      rewrite (fireTimer_eq _ _ _ Hwf Hq). apply after_commit_currentSlide.
  - left. by apply nextSlide_index.
  - left. by apply previousSlide_index.
  - left. by apply goToSlide_index.
  - left. by apply handleSwipe_index.
Qed.

Lemma wf_reachable d es :
  doc_slides d ≠ [] → wf (snd (run es (snd (constructor d)))).
Proof.
  intros Hne. rewrite (constructor_eq d Hne). cbn [snd].
  by apply run_returns, wf_after_constructor.
Qed.

(** C3. On a deck with at least one slide, [currentSlide] lies in
    [1, totalSlides] after construction and after every sequence of
    clicks, key presses, touches, direct calls of [nextSlide],
    [previousSlide], [goToSlide] and [handleSwipe], and timer firings;
    [totalSlides] stays the number of slides found at construction. From
    any such world, an event either leaves [currentSlide] as it is, or it
    is the firing of a pending timer, which assigns the slide number that
    passed the range guard when the timer was scheduled. *)
Theorem currentSlide_always_in_range (d : Document) (es : list Event) :
  doc_slides d ≠ [] →
  let w := snd (run es (snd (constructor d))) in
  1 <= currentSlide w <= totalSlides w
  ∧ totalSlides w = Z.of_nat (length (doc_slides d))
  ∧ ∀ e : Event,
      currentSlide (snd (handle e w)) = currentSlide w
      ∨ (e = TimerFires
         ∧ ∃ t rest, timers w = t :: rest
                     ∧ 1 <= slideNumber t <= totalSlides w
                     ∧ currentSlide (snd (handle e w)) = slideNumber t).
Proof.
  intros Hne w.
  pose proof (wf_reachable d es Hne) as Hwf. fold w in Hwf.
  split; [|split].
  - by destruct Hwf as (_ & ? & _).
  - unfold w. rewrite (constructor_eq d Hne). cbn [snd].
    destruct (run_returns es _ (wf_after_constructor d Hne)) as (_ & _ & ->).
    unfold after_constructor. cbn. by rewrite ui_projection_totalSlides.
  - intros e. by apply handle_index.
Qed.

Lemma currentSlide_always_in_range_witness :
  sample_slides ≠ []
  ∧ let w := snd (run [ClickNext; ClickNext; TimerFires; KeyDown "End";
                       CallGoToSlide 9; TouchStart 10; TouchEnd 300; TimerFires]
                    (snd (constructor sample_document))) in
    1 <= currentSlide w <= totalSlides w
    ∧ totalSlides w = 5
    ∧ ∀ e : Event,
        currentSlide (snd (handle e w)) = currentSlide w
        ∨ (e = TimerFires
           ∧ ∃ t rest, timers w = t :: rest
                       ∧ 1 <= slideNumber t <= totalSlides w
                       ∧ currentSlide (snd (handle e w)) = slideNumber t).
Proof.
  assert (doc_slides sample_document ≠ []) as Hne by discriminate.
  split; [done|].
  exact (currentSlide_always_in_range sample_document
           [ClickNext; ClickNext; TimerFires; KeyDown "End";
            CallGoToSlide 9; TouchStart 10; TouchEnd 300; TimerFires] Hne).
Defined.

(** ** Exceptions *)

(** C8, refuted as stated: on a page without slides the constructor
    throws a [TypeError], from [updateUI], where [this.slides[0]] is
    [undefined] and [querySelector] is read from it. *)
Lemma constructor_throws_on_empty_deck :
  fst (constructor empty_document) =
  Throw (TypeError "Cannot read properties of undefined (reading 'querySelector')").
Proof. reflexivity. Qed.

Lemma constructor_throws_without_slides d :
  doc_slides d = [] → ∃ e w, constructor d = (Throw e, w).
Proof.
  intros Hnil. unfold constructor. js_eval.
  destruct (updateUI_throws (initial_world d)) as (e & w & ->); [|by eauto].
  cbn. rewrite Hnil. cbn. lia.
Qed.

Lemma updateUI_without_title w :
  wf w →
  title_of (slides w) (Z.to_nat (currentSlide w - 1)) = None →
  ∃ w', updateUI w = (Normal tt, w') ∧ documentTitle w' = documentTitle w.
Proof.
  intros Hwf Hnone. exists (ui_projection w). split.
  - by apply updateUI_eq, wf_current_item.
  - by rewrite ui_projection_documentTitle, Hnone.
Qed.

(** C8, amended. On a deck with at least one slide nothing throws: the
    constructor returns normally and so does the handler of every event of
    every sequence. In every world reached, a slide number outside
    [1, totalSlides] makes [goToSlide] return with the world unchanged,
    and a current slide without title element makes [updateUI] return
    normally with the document title left as it was. *)
Theorem nothing_thrown_on_nonempty_deck (d : Document) (es : list Event) :
  doc_slides d ≠ [] →
  fst (constructor d) = Normal tt
  ∧ Forall (λ c, c = Normal tt) (fst (run es (snd (constructor d))))
  ∧ let w := snd (run es (snd (constructor d))) in
    (∀ n, n < 1 ∨ n > totalSlides w → goToSlide n w = (Normal tt, w))
    ∧ (title_of (slides w) (Z.to_nat (currentSlide w - 1)) = None →
       ∃ w', updateUI w = (Normal tt, w') ∧ documentTitle w' = documentTitle w).
Proof.
  intros Hne. split; [|split; [|intros w; split]].
  - by rewrite (constructor_eq d Hne).
  - rewrite (constructor_eq d Hne). cbn [snd].
    by apply run_returns, wf_after_constructor.
  - intros n Hn. by apply goToSlide_guard.
  - apply updateUI_without_title. by apply wf_reachable.
Qed.

Lemma nothing_thrown_on_nonempty_deck_witness :
  sample_slides ≠ []
  ∧ fst (constructor sample_document) = Normal tt
  ∧ Forall (λ c, c = Normal tt)
      (fst (run [CallGoToSlide 0; CallGoToSlide 6; ClickNext; TimerFires]
              (snd (constructor sample_document))))
  ∧ let w := snd (run [CallGoToSlide 0; CallGoToSlide 6; ClickNext; TimerFires]
                    (snd (constructor sample_document))) in
    (∀ n, n < 1 ∨ n > totalSlides w → goToSlide n w = (Normal tt, w))
    ∧ (title_of (slides w) (Z.to_nat (currentSlide w - 1)) = None →
       ∃ w', updateUI w = (Normal tt, w') ∧ documentTitle w' = documentTitle w).
Proof.
  assert (doc_slides sample_document ≠ []) as Hne by discriminate.
  split; [done|].
  exact (nothing_thrown_on_nonempty_deck sample_document
           [CallGoToSlide 0; CallGoToSlide 6; ClickNext; TimerFires] Hne).
Defined.

(** ** View times *)

Section TrackSlideChange.
Import SlideAnalytics.

Variables (a : SlideAnalytics.t) (n now : Z).

Lemma trackSlideChange_lookup :
  slideViewTimes (trackSlideChange n now a) !! n =
  Some (Ms (accumulated a n + (now - currentSlideStartTime a))).
Proof.
  unfold trackSlideChange, accumulated. cbn.
  rewrite lookup_insert_eq. f_equal.
  destruct (slideViewTimes a !! n) as [[z|]|] eqn:Hn; cbn.
  - destruct (Z.eqb_spec z 0) as [->|Hz]; cbn.
    + by rewrite lookup_insert_eq.
    + by rewrite Hn.
  - by rewrite lookup_insert_eq.
  - by rewrite lookup_insert_eq.
Qed.

Lemma trackSlideChange_others k :
  k ≠ n → slideViewTimes (trackSlideChange n now a) !! k = slideViewTimes a !! k.
Proof.
  intros Hk. unfold trackSlideChange. cbn.
  rewrite lookup_insert_ne by done.
  destruct (negb _); [by rewrite lookup_insert_ne|done].
Qed.
End TrackSlideChange.

(** C9, refuted as stated: the constructor reads the clock twice. With
    readings 1000 for [startTime] and 1003 for [currentSlideStartTime],
    the first [trackSlideChange(1)], at 1500, adds 497, which is not the
    500 elapsed since the session start. *)
Lemma first_interval_not_since_session_start :
  SlideAnalytics.slideViewTimes
    (SlideAnalytics.trackSlideChange 1 1500 (SlideAnalytics.constructor 1000 1003)) !! 1
  = Some (SlideAnalytics.Ms 497)
  ∧ 1500 - SlideAnalytics.startTime (SlideAnalytics.constructor 1000 1003) = 500
  ∧ SlideAnalytics.slideViewTimes
      (SlideAnalytics.trackSlideChange 1 1500 (SlideAnalytics.constructor 1000 1003)) !! 1
    ≠ Some (SlideAnalytics.Ms
              (1500 - SlideAnalytics.startTime (SlideAnalytics.constructor 1000 1003))).
Proof.
  rewrite trackSlideChange_lookup. split; [reflexivity|]. split; [reflexivity|].
  discriminate.
Qed.

(** C9, amended. For every tracker state, slide number and clock reading
    [now], [trackSlideChange(slideNumber)] stores for [slideNumber] its
    accumulated total (0 when unseen) plus [now] minus the last-transition
    timestamp, sets the last-transition timestamp to [now], keeps the
    session start, and leaves the entry of every other slide number as it
    was. On a fresh tracker every total is 0 and the last-transition
    timestamp is the constructor's second reading of the clock, so the
    first call stores the time elapsed since that reading; it is the time
    since [startTime] only when the constructor's two readings agree. *)
Theorem trackSlideChange_accumulates (a : SlideAnalytics.t) (slideNumber now : Z) :
  let a' := SlideAnalytics.trackSlideChange slideNumber now a in
  let elapsed := now - SlideAnalytics.currentSlideStartTime a in
  SlideAnalytics.slideViewTimes a' !! slideNumber =
    Some (SlideAnalytics.Ms (SlideAnalytics.accumulated a slideNumber + elapsed))
  ∧ SlideAnalytics.accumulated a' slideNumber =
    SlideAnalytics.accumulated a slideNumber + elapsed
  ∧ SlideAnalytics.currentSlideStartTime a' = now
  ∧ SlideAnalytics.startTime a' = SlideAnalytics.startTime a
  ∧ (∀ k, k ≠ slideNumber →
          SlideAnalytics.slideViewTimes a' !! k = SlideAnalytics.slideViewTimes a !! k)
  ∧ (∀ t0 t1,
       let fresh := SlideAnalytics.constructor t0 t1 in
       SlideAnalytics.startTime fresh = t0
       ∧ SlideAnalytics.currentSlideStartTime fresh = t1
       ∧ SlideAnalytics.accumulated fresh slideNumber = 0
       ∧ SlideAnalytics.slideViewTimes
           (SlideAnalytics.trackSlideChange slideNumber now fresh) !! slideNumber =
         Some (SlideAnalytics.Ms (now - t1))
       ∧ (t0 = t1 →
          SlideAnalytics.slideViewTimes
            (SlideAnalytics.trackSlideChange slideNumber now fresh) !! slideNumber =
          Some (SlideAnalytics.Ms (now - SlideAnalytics.startTime fresh)))).
Proof.
  intros a' elapsed.
  pose proof (trackSlideChange_lookup a slideNumber now) as Hlook.
  split_and!.
  - exact Hlook.
  - unfold SlideAnalytics.accumulated at 1. fold a' in Hlook. by rewrite Hlook.
  - done.
  - done.
  - intros k Hk. by apply trackSlideChange_others.
  - intros t0 t1 fresh. split_and!; [done..| |].
    + by rewrite trackSlideChange_lookup.
    + intros ->. by rewrite trackSlideChange_lookup.
Qed.

Lemma trackSlideChange_accumulates_witness :
  let a := SlideAnalytics.trackSlideChange 2 1400 (SlideAnalytics.constructor 1000 1000) in
  let a' := SlideAnalytics.trackSlideChange 2 2000 a in
  SlideAnalytics.slideViewTimes a' !! 2 = Some (SlideAnalytics.Ms (400 + 600))
  ∧ SlideAnalytics.currentSlideStartTime a' = 2000
  ∧ SlideAnalytics.slideViewTimes a' !! 3 = SlideAnalytics.slideViewTimes a !! 3.
Proof.
  intros a a'.
  pose proof (trackSlideChange_accumulates a 2 2000) as (H1 & _ & H3 & _ & H5 & _).
  assert (3 ≠ 2) as Hne by discriminate.
  split_and!; [exact H1|exact H3|exact (H5 3 Hne)].
Defined.

(** ** Scenarios *)

(** Five slides, fresh load: index 1, counter "1 / 5", progress 20%,
    previous disabled, next enabled. *)
Example scenario_fresh_load :
  fst (constructor sample_document) = Normal tt
  ∧ currentSlide deck5 = 1
  ∧ slideCounter deck5 = "1 / 5"
  ∧ progressBar deck5 = Percent (Z_to_number 20)
  ∧ disabled (prevBtn deck5) = true
  ∧ disabled (nextBtn deck5) = false
  ∧ documentTitle deck5 = "Intro - GMC Acadia Korea Market".
Proof. split_and!; reflexivity. Qed.

(** From index 1, the End key: after the deferred phase index 5, counter
    "5 / 5", progress 100%, next disabled. *)
Example scenario_end_key :
  currentSlide deck5_at5 = 5
  ∧ slideCounter deck5_at5 = "5 / 5"
  ∧ progressBar deck5_at5 = Percent (Z_to_number 100)
  ∧ disabled (nextBtn deck5_at5) = true
  ∧ classList <$> slides deck5_at5 =
    [["slide"]; ["slide"]; ["slide"]; ["slide"]; ["slide"; "active"]].
Proof. split_and!; reflexivity. Qed.

(** From index 3 of 5, a swipe from 200 to 100 advances to 4. *)
Example scenario_swipe :
  currentSlide (snd (run [TouchStart 200; TouchEnd 100; TimerFires] deck5_at3)) = 4.
Proof. reflexivity. Qed.

(** Slide 7 of 25: the quotient and the product round, and the width is
    28.000000000000004 percent, one unit in the last place above 28. *)
Example scenario_progress_rounds :
  js_mul (js_div 7 25) 100 = S754_finite false 7881299347898369 (-48)
  ∧ Z_to_number 28 = S754_finite false 7881299347898368 (-48).
Proof. split; reflexivity. Qed.

(** [goToSlide(0)] and [goToSlide(6)] on five slides change nothing. *)
Example scenario_out_of_range :
  run [CallGoToSlide 0; CallGoToSlide 6] deck5_at3 = ([Normal tt; Normal tt], deck5_at3).
Proof. reflexivity. Qed.

(** Two quick presses of the next button from index 1 both ask for slide
    2: the second call still reads the uncommitted index. *)
Example scenario_overlapping_navigation :
  slideNumber <$> timers (snd (run [ClickNext; ClickNext] deck5)) = [2; 2]
  ∧ currentSlide (snd (run [ClickNext; ClickNext; TimerFires; TimerFires] deck5)) = 2.
Proof. split; reflexivity. Qed.

(** A backward navigation started before a forward one has committed
    leaves the exit treatment of the forward one on the slide. *)
Example scenario_exit_flag_survives_backward :
  classList <$> slides (snd (run [CallGoToSlide 4; CallGoToSlide 1] deck5_at3)) !! 2%nat
  = Some ["slide"; "exit-left"].
Proof. reflexivity. Qed.

(** * Further properties of the deck *)

(** ** The worlds an event can lead to *)

Lemma goToSlide_shape n w : wf w → quiet_step w (snd (goToSlide n w)).
Proof.
  intros Hwf. destruct (decide (1 <= n <= totalSlides w)) as [Hn|Hn].
  - right. exists n. split; [done|].
    by rewrite goToSlide_pass; [|done|by apply wf_current_item|by destruct Hwf].
  - left. by rewrite goToSlide_guard by lia.
Qed.

Lemma nextSlide_shape w : wf w → quiet_step w (snd (nextSlide w)).
Proof.
  intros Hwf. unfold nextSlide. js_eval.
  destruct (currentSlide w <? totalSlides w); [by apply goToSlide_shape|by left].
Qed.

Lemma previousSlide_shape w : wf w → quiet_step w (snd (previousSlide w)).
Proof.
  intros Hwf. unfold previousSlide. js_eval.
  destruct (currentSlide w >? 1); [by apply goToSlide_shape|by left].
Qed.

Lemma handleSwipe_shape startX endX w :
  wf w → quiet_step w (snd (handleSwipe startX endX w)).
Proof.
  intros Hwf. unfold handleSwipe.
  destruct (Z.abs (startX - endX) >? swipeThreshold); [|by left].
  destruct (startX - endX >? 0);
    [by apply nextSlide_shape | by apply previousSlide_shape].
Qed.

Lemma onKeyDown_shape key w : wf w → quiet_step w (snd (onKeyDown key w)).
Proof.
  intros Hwf. unfold onKeyDown. repeat case_bool_decide.
  - by apply nextSlide_shape.
  - by apply previousSlide_shape.
  - by apply goToSlide_shape.
  - js_eval. by apply goToSlide_shape.
  - by left.
Qed.

Lemma wf_set_touchStartX x w : wf w → wf (set_touchStartX x w).
Proof. done. Qed.

Lemma wf_set_touchEndX x w : wf w → wf (set_touchEndX x w).
Proof. done. Qed.

(** An invariant of the four kinds of change holds along every run. *)
Lemma run_invariant (P : World → Prop) :
  (∀ w x, wf w → P w → P (set_touchStartX x w)) →
  (∀ w x, wf w → P w → P (set_touchEndX x w)) →
  (∀ w n, wf w → 1 <= n <= totalSlides w → P w → P (after_exit_cue n w)) →
  (∀ w t rest, wf w → timers w = t :: rest → P w →
               P (after_commit (slideNumber t) (set_timers rest w))) →
  ∀ es w, wf w → P w → P (snd (run es w)).
Proof.
  intros Hstart Hend Hcue Hcommit es.
  assert (∀ w w', wf w → P w → quiet_step w w' → P w') as Hquiet.
  { intros w w' Hwf HP [->|(n & Hn & ->)]; [done|by apply Hcue]. }
  induction es as [|e es IH]; intros w Hwf HP; cbn [run]; [done|].
  destruct (handle_returns e w Hwf) as (w1 & He & Hwf1 & _).
  assert (P w1) as HP1.
  { replace w1 with (snd (handle e w)) by (by rewrite He). clear He Hwf1.
    destruct e as [| |key|x|x| | | |n|startX endX]; cbn [handle].
    - by eapply Hquiet, previousSlide_shape.
    - by eapply Hquiet, nextSlide_shape.
    - by eapply Hquiet, onKeyDown_shape.
    - by apply Hstart.
    - js_eval. cbn.
      eapply (Hquiet (set_touchEndX x w)); [done|by apply Hend|].
      by apply (handleSwipe_shape _ _ (set_touchEndX x w)).
    - destruct (timers w) as [|t rest] eqn:Hq.
      + unfold fireTimer. by rewrite Hq.
      + rewrite (fireTimer_eq _ _ _ Hwf Hq). by apply Hcommit.
    - by eapply Hquiet, nextSlide_shape.
    - by eapply Hquiet, previousSlide_shape.
    - by eapply Hquiet, goToSlide_shape.
    - by eapply Hquiet, handleSwipe_shape. }
  rewrite He. specialize (IH w1 Hwf1 HP1).
  by destruct (run es w1).
Qed.

Lemma run_app es1 es2 w :
  run (es1 ++ es2) w =
  (fst (run es1 w) ++ fst (run es2 (snd (run es1 w))), snd (run es2 (snd (run es1 w)))).
Proof.
  revert w. induction es1 as [|e es1 IH]; intros w.
  - cbn. by destruct (run es2 w).
  - change ((e :: es1) ++ es2) with (e :: (es1 ++ es2)). cbn [run].
    destruct (handle e w) as [c w1]. rewrite IH.
    destruct (run es1 w1) as [cs w2]. cbn. by destruct (run es2 w2).
Qed.

Lemma run_two e1 e2 w :
  run [e1; e2] w =
  ([fst (handle e1 w); fst (handle e2 (snd (handle e1 w)))],
   snd (handle e2 (snd (handle e1 w)))).
Proof.
  cbn [run]. destruct (handle e1 w) as [c1 w1]. cbn [fst snd].
  by destruct (handle e2 w1).
Qed.

(** ** Pending timers *)

Lemma after_commit_wf_tail t rest w :
  wf w → timers w = t :: rest →
  wf (after_commit (slideNumber t) (set_timers rest w))
  ∧ timers (after_commit (slideNumber t) (set_timers rest w)) = rest.
Proof.
  intros Hwf Hq. destruct (wf_set_timers_tail _ _ _ Hwf Hq) as [Hwf' (Hn & _)].
  split; [by apply wf_after_commit|by rewrite after_commit_timers].
Qed.

Lemma drain_timers ts :
  ∀ w last_timer,
    wf w → timers w = ts → last ts = Some last_timer →
    let r := run (replicate (length ts) TimerFires) w in
    fst r = replicate (length ts) (Normal tt)
    ∧ wf (snd r)
    ∧ timers (snd r) = []
    ∧ currentSlide (snd r) = slideNumber last_timer
    ∧ ∀ i sl, slides (snd r) !! i = Some sl →
              (has_class "active" sl ↔ i = Z.to_nat (slideNumber last_timer - 1))
              ∧ ¬ has_class "exit-left" sl.
Proof.
  induction ts as [|t rest IH]; intros w lt Hwf Hq Hlast; [done|].
  cbn [length replicate run handle].
  rewrite (fireTimer_eq _ _ _ Hwf Hq).
  destruct (after_commit_wf_tail _ _ _ Hwf Hq) as [Hwf1 Hq1].
  destruct rest as [|t' rest'].
  - cbn in Hlast. injection Hlast as <-. cbn [run fst snd replicate length].
    split_and!; [done..| |].
    + apply after_commit_currentSlide.
    + intros i sl. apply after_commit_flags.
  - assert (last (t' :: rest') = Some lt) as Hlast' by done.
    specialize (IH _ lt Hwf1 Hq1 Hlast').
    destruct (run (replicate (length (t' :: rest')) TimerFires) _) as [cs w2].
    cbn [fst snd] in *. destruct IH as (-> & ? & ? & ? & ?). by split_and!.
Qed.

(** X1. Pending commits run in the order they were scheduled and the
    last one wins: once every pending timer of a well-formed deck has
    fired, nothing has thrown, nothing is pending, [currentSlide] is the
    slide number of the navigation scheduled last, that slide is the only
    active one and no slide keeps ['exit-left']. *)
Theorem last_scheduled_commit_wins (w : World) (last_timer : Timer) :
  wf w → last (timers w) = Some last_timer →
  let r := run (replicate (length (timers w)) TimerFires) w in
  fst r = replicate (length (timers w)) (Normal tt)
  ∧ timers (snd r) = []
  ∧ currentSlide (snd r) = slideNumber last_timer
  ∧ ∀ i sl, slides (snd r) !! i = Some sl →
            (has_class "active" sl ↔ i = Z.to_nat (slideNumber last_timer - 1))
            ∧ ¬ has_class "exit-left" sl.
Proof.
  intros Hwf Hlast r.
  destruct (drain_timers (timers w) w last_timer Hwf eq_refl Hlast)
    as (? & _ & ? & ? & ?).
  by split_and!.
Qed.

Lemma last_scheduled_commit_wins_witness :
  wf deck5_two_pending
  ∧ last (timers deck5_two_pending) = Some (mkTimer (Some 1%nat) 2 50)
  ∧ currentSlide (snd (run [TimerFires; TimerFires] deck5_two_pending)) = 2.
Proof.
  assert (wf deck5_two_pending) as Hwf by by_computation.
  assert (last (timers deck5_two_pending) = Some (mkTimer (Some 1%nat) 2 50)) as Hl
    by reflexivity.
  split_and!; [done..|].
  exact (proj1 (proj2 (proj2 (last_scheduled_commit_wins _ _ Hwf Hl)))).
Defined.

(** ** A navigation and its commit *)

Lemma fire_after_exit_cue n w :
  wf w → timers w = [] → 1 <= n <= totalSlides w →
  fireTimer (after_exit_cue n w) = (Normal tt, settled n w).
Proof.
  intros Hwf Hq Hn.
  apply (fireTimer_eq (mkTimer (Some (Z.to_nat (n - 1))) n 50) [] (after_exit_cue n w)).
  - by apply wf_after_exit_cue.
  - unfold after_exit_cue. cbn. by rewrite Hq.
Qed.

Lemma wf_settled n w :
  wf w → 1 <= n <= totalSlides w → wf (settled n w) ∧ timers (settled n w) = []
  ∧ currentSlide (settled n w) = n ∧ totalSlides (settled n w) = totalSlides w.
Proof.
  intros Hwf Hn. unfold settled.
  rewrite after_commit_timers, after_commit_currentSlide, after_commit_totalSlides.
  split_and!; [|done..]. apply wf_after_commit; [|exact Hn].
  destruct (wf_after_exit_cue n w Hwf Hn) as (Htot & Hcur & _).
  split; [exact Htot|]. split; [exact Hcur|]. constructor.
Qed.

Lemma goToSlide_then_fire n w :
  wf w → timers w = [] →
  run [CallGoToSlide n; TimerFires] w =
  ([Normal tt; Normal tt],
   if decide (1 <= n <= totalSlides w) then settled n w else w).
Proof.
  intros Hwf Hq. cbn [run handle]. case_decide as Hn.
  - rewrite goToSlide_pass; [|done|by apply wf_current_item|by destruct Hwf].
    by rewrite fire_after_exit_cue.
  - rewrite goToSlide_guard by lia. unfold fireTimer. by rewrite Hq.
Qed.

(** On a well-formed deck the bound checks of [nextSlide] and
    [previousSlide] repeat the guard of [goToSlide]. *)
Lemma nextSlide_is_goToSlide w : wf w → nextSlide w = goToSlide (currentSlide w + 1) w.
Proof.
  intros (_ & Hcur & _). unfold nextSlide. js_eval.
  destruct (Z.ltb_spec (currentSlide w) (totalSlides w)); [done|].
  by rewrite goToSlide_guard by lia.
Qed.

Lemma previousSlide_is_goToSlide w :
  wf w → previousSlide w = goToSlide (currentSlide w - 1) w.
Proof.
  intros (_ & Hcur & _). unfold previousSlide. js_eval. rewrite Z.gtb_ltb.
  destruct (Z.ltb_spec 1 (currentSlide w)); [done|].
  by rewrite goToSlide_guard by lia.
Qed.

Lemma nextSlide_then_fire w :
  wf w → timers w = [] →
  run [CallNextSlide; TimerFires] w =
  ([Normal tt; Normal tt],
   if decide (currentSlide w < totalSlides w) then settled (currentSlide w + 1) w else w).
Proof.
  intros Hwf Hq.
  pose proof (goToSlide_then_fire (currentSlide w + 1) w Hwf Hq) as H.
  cbn [run handle] in *. rewrite nextSlide_is_goToSlide by done.
  rewrite H. destruct Hwf as (_ & Hcur & _).
  repeat case_decide; (done || lia).
Qed.

Lemma previousSlide_then_fire w :
  wf w → timers w = [] →
  run [CallPreviousSlide; TimerFires] w =
  ([Normal tt; Normal tt],
   if decide (1 < currentSlide w) then settled (currentSlide w - 1) w else w).
Proof.
  intros Hwf Hq.
  pose proof (goToSlide_then_fire (currentSlide w - 1) w Hwf Hq) as H.
  cbn [run handle] in *. rewrite previousSlide_is_goToSlide by done.
  rewrite H. destruct Hwf as (_ & Hcur & _).
  repeat case_decide; (done || lia).
Qed.

(** X2. Navigation saturates: on a well-formed deck with nothing
    pending, [nextSlide()] and the firing of the timer leave
    [currentSlide] at [min (currentSlide + 1) totalSlides], and
    [previousSlide()] at [max (currentSlide - 1) 1]; neither throws nor
    leaves a timer behind. *)
Theorem next_previous_saturate_after_commit (w : World) :
  wf w → timers w = [] →
  let nxt := run [CallNextSlide; TimerFires] w in
  let prv := run [CallPreviousSlide; TimerFires] w in
  fst nxt = [Normal tt; Normal tt]
  ∧ currentSlide (snd nxt) = Z.min (currentSlide w + 1) (totalSlides w)
  ∧ timers (snd nxt) = []
  ∧ fst prv = [Normal tt; Normal tt]
  ∧ currentSlide (snd prv) = Z.max (currentSlide w - 1) 1
  ∧ timers (snd prv) = [].
Proof.
  intros Hwf Hq nxt prv. unfold nxt, prv.
  rewrite nextSlide_then_fire, previousSlide_then_fire by done. cbn [fst snd].
  pose proof Hwf as (_ & Hcur & _).
  split_and!; try done; case_decide;
    try (destruct (wf_settled (currentSlide w + 1) w Hwf) as (_ & ? & ? & _); [lia|]);
    try (destruct (wf_settled (currentSlide w - 1) w Hwf) as (_ & ? & ? & _); [lia|]);
    (done || lia).
Qed.

Lemma next_previous_saturate_after_commit_witness :
  wf deck5_at5 ∧ timers deck5_at5 = []
  ∧ currentSlide (snd (run [CallNextSlide; TimerFires] deck5_at5)) = Z.min (5 + 1) 5
  ∧ currentSlide (snd (run [CallPreviousSlide; TimerFires] deck5_at5)) = Z.max (5 - 1) 1.
Proof.
  assert (wf deck5_at5) as Hwf by by_computation.
  assert (timers deck5_at5 = []) as Hq by reflexivity.
  pose proof (next_previous_saturate_after_commit deck5_at5 Hwf Hq)
    as (_ & H1 & _ & _ & H2 & _).
  split_and!; [done|done|exact H1|exact H2].
Defined.

(** ** Gestures and keys, end to end *)

Lemma settled_set_touchEndX n x w :
  currentSlide (settled n (set_touchEndX x w)) = n
  ∧ touchEndX (settled n (set_touchEndX x w)) = x
  ∧ touchStartX (settled n (set_touchEndX x w)) = touchStartX w.
Proof.
  unfold settled. rewrite after_commit_currentSlide. split; [done|].
  unfold after_commit, ui_projection. cbn. by destruct (title_of _ _).
Qed.

(** X3. A touch that ends at [endX] is measured from the last recorded
    start, [touchStartX]. On a well-formed deck with nothing pending,
    after the touch and the timer the index is
    [min (currentSlide + 1) totalSlides] when the finger moved left by
    more than 50, [max (currentSlide - 1) 1] when it moved right by more
    than 50, and unchanged otherwise; the end coordinate is recorded in
    every case. *)
Theorem touch_gesture_navigates (w : World) (endX : Z) :
  wf w → timers w = [] →
  let r := run [TouchEnd endX; TimerFires] w in
  let difference := touchStartX w - endX in
  fst r = [Normal tt; Normal tt]
  ∧ touchEndX (snd r) = endX
  ∧ touchStartX (snd r) = touchStartX w
  ∧ currentSlide (snd r) =
    if difference >? 50 then Z.min (currentSlide w + 1) (totalSlides w)
    else if difference <? -50 then Z.max (currentSlide w - 1) 1
    else currentSlide w.
Proof.
  intros Hwf Hq r difference. subst r difference.
  set (w1 := set_touchEndX endX w).
  assert (wf w1) as Hwf1 by done.
  assert (timers w1 = []) as Hq1 by done.
  pose proof Hwf as (_ & Hcur & _).
  assert (handle (TouchEnd endX) w = handleSwipe (touchStartX w) endX w1) as Hh
    by reflexivity.
  rewrite run_two, Hh. cbn [handle]. unfold handleSwipe, swipeThreshold.
  destruct (Z.gtb_spec (Z.abs (touchStartX w - endX)) 50) as [Habs|Habs].
  - destruct (Z.gtb_spec (touchStartX w - endX) 0) as [Hpos|Hneg].
    + pose proof (nextSlide_then_fire w1 Hwf1 Hq1) as Hn.
      rewrite run_two in Hn. cbn [handle] in Hn. injection Hn as -> -> ->.
      assert ((touchStartX w - endX >? 50) = true) as ->
        by (rewrite Z.gtb_ltb; apply Z.ltb_lt; lia).
      change (currentSlide w1) with (currentSlide w).
      change (totalSlides w1) with (totalSlides w).
      case_decide; cbn [fst snd].
      * destruct (settled_set_touchEndX (currentSlide w + 1) endX w) as (Hc & He & Hs).
        fold w1 in Hc, He, Hs.
        split_and!; [done|exact He|exact Hs|rewrite Hc; lia].
      * split_and!; [done..|]. change (currentSlide w1) with (currentSlide w). lia.
    + pose proof (previousSlide_then_fire w1 Hwf1 Hq1) as Hp.
      rewrite run_two in Hp. cbn [handle] in Hp. injection Hp as -> -> ->.
      assert ((touchStartX w - endX >? 50) = false) as ->
        by (rewrite Z.gtb_ltb; apply Z.ltb_ge; lia).
      assert ((touchStartX w - endX <? -50) = true) as -> by (apply Z.ltb_lt; lia).
      change (currentSlide w1) with (currentSlide w).
      case_decide; cbn [fst snd].
      * destruct (settled_set_touchEndX (currentSlide w - 1) endX w) as (Hc & He & Hs).
        fold w1 in Hc, He, Hs.
        split_and!; [done|exact He|exact Hs|rewrite Hc; lia].
      * split_and!; [done..|]. change (currentSlide w1) with (currentSlide w). lia.
  - assert ((touchStartX w - endX >? 50) = false) as ->
      by (rewrite Z.gtb_ltb; apply Z.ltb_ge; lia).
    assert ((touchStartX w - endX <? -50) = false) as -> by (apply Z.ltb_ge; lia).
    cbn [mret JS_ret js_ret fst snd]. unfold fireTimer. rewrite Hq1.
    by split_and!.
Qed.

Lemma touch_gesture_navigates_witness :
  let w := snd (handle (TouchStart 200) deck5_at3) in
  wf w ∧ timers w = []
  ∧ currentSlide (snd (run [TouchEnd 100; TimerFires] w)) = Z.min (3 + 1) 5.
Proof.
  intros w.
  assert (wf w) as Hwf by by_computation.
  assert (timers w = []) as Hq by reflexivity.
  split_and!; [done..|].
  exact (proj2 (proj2 (proj2 (touch_gesture_navigates w 100 Hwf Hq)))).
Defined.

Lemma settled_shows n w :
  wf w → 1 <= n <= totalSlides w → ui_shows n (settled n w).
Proof.
  intros Hwf Hn. apply after_commit_shows. cbn. lia.
Qed.

(** X4. On a well-formed deck with nothing pending, the Home key
    followed by the timer leaves the deck on slide 1 with the previous
    button disabled, and the End key on the last slide with the next
    button disabled; the opposite button is disabled too exactly when the
    deck has a single slide. *)
Theorem home_and_end_keys (w : World) :
  wf w → timers w = [] →
  let home := snd (run [KeyDown "Home"; TimerFires] w) in
  let end_ := snd (run [KeyDown "End"; TimerFires] w) in
  currentSlide home = 1
  ∧ disabled (prevBtn home) = true
  ∧ (disabled (nextBtn home) = true ↔ totalSlides w = 1)
  ∧ currentSlide end_ = totalSlides w
  ∧ disabled (nextBtn end_) = true
  ∧ (disabled (prevBtn end_) = true ↔ totalSlides w = 1).
Proof.
  intros Hwf Hq home end_.
  pose proof Hwf as (_ & Hcur & _).
  assert (home = settled 1 w) as ->.
  { pose proof (goToSlide_then_fire 1 w Hwf Hq) as H.
    rewrite decide_True in H by lia. unfold home.
    change (run [KeyDown "Home"; TimerFires] w)
      with (run [CallGoToSlide 1; TimerFires] w).
    by rewrite H. }
  assert (end_ = settled (totalSlides w) w) as ->.
  { pose proof (goToSlide_then_fire (totalSlides w) w Hwf Hq) as H.
    rewrite decide_True in H by lia. unfold end_.
    change (run [KeyDown "End"; TimerFires] w)
      with (run [CallGoToSlide (totalSlides w); TimerFires] w).
    by rewrite H. }
  destruct (wf_settled 1 w Hwf) as (_ & _ & H1 & Ht1); [lia|].
  destruct (wf_settled (totalSlides w) w Hwf) as (_ & _ & Hn & Htn); [lia|].
  destruct (settled_shows 1 w Hwf) as (Hp1 & _ & _ & Hx1 & _); [lia|].
  destruct (settled_shows (totalSlides w) w Hwf) as (Hpn & _ & _ & Hxn & _); [lia|].
  rewrite Ht1 in Hx1. rewrite Htn in Hxn.
  split_and!; [done|by apply Hp1| |done|by apply Hxn|].
  - rewrite Hx1. split; intros; lia.
  - exact Hpn.
Qed.

Lemma home_and_end_keys_witness :
  wf deck5_at3 ∧ timers deck5_at3 = []
  ∧ currentSlide (snd (run [KeyDown "Home"; TimerFires] deck5_at3)) = 1
  ∧ currentSlide (snd (run [KeyDown "End"; TimerFires] deck5_at3))
    = totalSlides deck5_at3.
Proof.
  assert (wf deck5_at3) as Hwf by by_computation.
  assert (timers deck5_at3 = []) as Hq by reflexivity.
  pose proof (home_and_end_keys deck5_at3 Hwf Hq) as (H1 & _ & _ & H2 & _).
  split_and!; [done|done|exact H1|exact H2].
Defined.

(** ** Composition of navigations *)

Lemma settled_flags n w i sl :
  slides (settled n w) !! i = Some sl →
  (has_class "active" sl ↔ i = Z.to_nat (n - 1)) ∧ ¬ has_class "exit-left" sl.
Proof. apply after_commit_flags. Qed.

Lemma next_then_previous_run w :
  wf w → timers w = [] → currentSlide w < totalSlides w →
  run [CallNextSlide; TimerFires; CallPreviousSlide; TimerFires] w =
  ([Normal tt; Normal tt; Normal tt; Normal tt],
   settled (currentSlide w) (settled (currentSlide w + 1) w)).
Proof.
  intros Hwf Hq Hlt.
  pose proof Hwf as (_ & Hcur & _).
  destruct (wf_settled (currentSlide w + 1) w Hwf) as (Hwf1 & Hq1 & Hc1 & Ht1); [lia|].
  pose proof (nextSlide_then_fire w Hwf Hq) as Hfwd.
  rewrite decide_True in Hfwd by done.
  remember (settled (currentSlide w + 1) w) as w1 eqn:Hw1. clear Hw1.
  pose proof (previousSlide_then_fire w1 Hwf1 Hq1) as Hback.
  rewrite decide_True in Hback by lia.
  assert (currentSlide w1 - 1 = currentSlide w) as Heq by lia.
  rewrite Heq in Hback.
  remember (settled (currentSlide w) w1) as w2 eqn:Hw2. clear Hw2.
  change [CallNextSlide; TimerFires; CallPreviousSlide; TimerFires]
    with ([CallNextSlide; TimerFires] ++ [CallPreviousSlide; TimerFires]).
  rewrite run_app, Hfwd. cbn [fst snd]. rewrite Hback. reflexivity.
Qed.

(** X5. Forward and back is a round trip for the index: on a
    well-formed deck with nothing pending and a slide ahead,
    [nextSlide()], its commit, [previousSlide()] and its commit return to
    the index they started from, with that slide the only active one, no
    exit flag left, and the UI showing that index. *)
Theorem next_then_previous_round_trip (w : World) :
  wf w → timers w = [] → currentSlide w < totalSlides w →
  let r := run [CallNextSlide; TimerFires; CallPreviousSlide; TimerFires] w in
  fst r = [Normal tt; Normal tt; Normal tt; Normal tt]
  ∧ currentSlide (snd r) = currentSlide w
  ∧ timers (snd r) = []
  ∧ ui_shows (currentSlide w) (snd r)
  ∧ ∀ i sl, slides (snd r) !! i = Some sl →
            (has_class "active" sl ↔ i = Z.to_nat (currentSlide w - 1))
            ∧ ¬ has_class "exit-left" sl.
Proof.
  intros Hwf Hq Hlt r. subst r.
  rewrite (next_then_previous_run w Hwf Hq Hlt).
  pose proof Hwf as (_ & Hcur & _).
  destruct (wf_settled (currentSlide w + 1) w Hwf) as (Hwf1 & _ & _ & Ht1); [lia|].
  assert (1 <= currentSlide w <= totalSlides (settled (currentSlide w + 1) w)) as Hn
    by lia.
  destruct (wf_settled (currentSlide w) _ Hwf1 Hn) as (_ & Hq2 & Hc2 & _).
  split; [reflexivity|]. split; [exact Hc2|]. split; [exact Hq2|]. split.
  - exact (settled_shows (currentSlide w) _ Hwf1 Hn).
  - exact (settled_flags (currentSlide w) _).
Qed.

Lemma next_then_previous_round_trip_witness :
  wf deck5_at3 ∧ timers deck5_at3 = [] ∧ currentSlide deck5_at3 < totalSlides deck5_at3
  ∧ currentSlide
      (snd (run [CallNextSlide; TimerFires; CallPreviousSlide; TimerFires] deck5_at3))
    = currentSlide deck5_at3.
Proof.
  assert (wf deck5_at3) as Hwf by by_computation.
  assert (timers deck5_at3 = []) as Hq by reflexivity.
  assert (currentSlide deck5_at3 < totalSlides deck5_at3) as Hlt by reflexivity.
  split_and!; [done..|].
  exact (proj1 (proj2 (next_then_previous_round_trip deck5_at3 Hwf Hq Hlt))).
Defined.

Lemma presses_queue k :
  ∀ w, wf w → currentSlide w < totalSlides w →
       let w' := snd (run (replicate k ClickNext) w) in
       fst (run (replicate k ClickNext) w) = replicate k (Normal tt)
       ∧ wf w'
       ∧ currentSlide w' = currentSlide w
       ∧ timers w' =
         timers w ++
         replicate k (mkTimer (Some (Z.to_nat (currentSlide w + 1 - 1)))
                        (currentSlide w + 1) 50).
Proof.
  induction k as [|k IH]; intros w Hwf Hlt.
  - cbn. rewrite app_nil_r. by split_and!.
  - pose proof Hwf as (Htot & Hcur & _).
    cbn [replicate run handle].
    rewrite nextSlide_is_goToSlide by done.
    rewrite goToSlide_pass; [|lia|by apply wf_current_item|done].
    set (w1 := after_exit_cue (currentSlide w + 1) w).
    assert (wf w1) as Hwf1 by (apply wf_after_exit_cue; [done|lia]).
    specialize (IH w1 Hwf1 Hlt).
    destruct (run (replicate k ClickNext) w1) as [cs w2]. cbn [fst snd] in *.
    destruct IH as (-> & ? & ? & ->).
    split_and!; [done..|]. unfold w1, after_exit_cue. cbn.
    by rewrite <- app_assoc.
Qed.

(** X6. Presses faster than the commit do not add up: on a well-formed
    deck with nothing pending and a slide ahead, any number [k >= 1] of
    clicks on the next button before the first timer fires, followed by
    the [k] timers, advances by exactly one slide. *)
Theorem rapid_next_clicks_advance_once (w : World) (k : nat) :
  wf w → timers w = [] → currentSlide w < totalSlides w → (1 <= k)%nat →
  let r := run (replicate k ClickNext ++ replicate k TimerFires) w in
  fst r = replicate (k + k) (Normal tt)
  ∧ currentSlide (snd r) = currentSlide w + 1
  ∧ timers (snd r) = [].
Proof.
  intros Hwf Hq Hlt Hk r. subst r. rewrite run_app.
  destruct (presses_queue k w Hwf Hlt) as (Hcs & Hwf1 & Hc1 & Hq1).
  rewrite Hq in Hq1. cbn [app] in Hq1.
  set (w1 := snd (run (replicate k ClickNext) w)) in *.
  set (tm := mkTimer _ _ _) in Hq1.
  assert (last (timers w1) = Some tm) as Hlast.
  { rewrite Hq1. destruct k as [|k]; [lia|].
    rewrite replicate_S_end. apply last_snoc. }
  assert (length (timers w1) = k) as Hlen by (by rewrite Hq1, length_replicate).
  pose proof (drain_timers (timers w1) w1 tm Hwf1 eq_refl Hlast) as Hd.
  rewrite Hlen in Hd. cbn zeta in Hd. destruct Hd as (Hcs2 & _ & Hq2 & Hc2 & _).
  cbn [fst snd]. rewrite Hcs, Hcs2.
  split_and!; [by rewrite replicate_add|done|done].
Qed.

Lemma rapid_next_clicks_advance_once_witness :
  wf deck5 ∧ timers deck5 = [] ∧ currentSlide deck5 < totalSlides deck5 ∧ (1 <= 3)%nat
  ∧ currentSlide
      (snd (run (replicate 3 ClickNext ++ replicate 3 TimerFires) deck5))
    = currentSlide deck5 + 1.
Proof.
  assert (wf deck5) as Hwf by by_computation.
  assert (timers deck5 = []) as Hq by reflexivity.
  assert (currentSlide deck5 < totalSlides deck5) as Hlt by reflexivity.
  assert (1 <= 3)%nat as Hk by lia.
  split_and!; [done..|].
  exact (proj1 (proj2 (rapid_next_clicks_advance_once deck5 3 Hwf Hq Hlt Hk))).
Defined.

(** ** What holds in every world a deck can reach *)

Lemma reachable_shows_current d es :
  doc_slides d ≠ [] →
  ui_shows (currentSlide (snd (run es (snd (constructor d)))))
    (snd (run es (snd (constructor d)))).
Proof.
  intros Hne. rewrite (constructor_eq d Hne). cbn [snd].
  apply (run_invariant (λ w, ui_shows (currentSlide w) w)).
  - done.
  - done.
  - done.
  - intros w t rest Hwf Hq _. rewrite after_commit_currentSlide.
    apply after_commit_shows. cbn. destruct Hwf as (_ & ? & _). lia.
  - by apply wf_after_constructor.
  - pose proof (doc_slides_length d Hne) as Hlen.
    assert (totalSlides (initial_world d) ≠ 0) as Htot by (cbn; lia).
    pose proof (ui_projection_shows (initial_world d) Htot) as Hshow.
    unfold after_constructor, ui_shows in *. cbn in *.
    rewrite ui_projection_currentSlide. exact Hshow.
Qed.

(** X7. The UI never lags behind or runs ahead of the index: after
    construction on a page with slides and after any sequence of events,
    the buttons, the counter and the progress bar show [currentSlide],
    also between the exit cue of a navigation and its commit. *)
Theorem ui_always_shows_current (d : Document) (es : list Event) :
  doc_slides d ≠ [] →
  let w := snd (run es (snd (constructor d))) in
  ui_shows (currentSlide w) w.
Proof. intros Hne w. by apply reachable_shows_current. Qed.

Lemma ui_always_shows_current_witness :
  sample_slides ≠ []
  ∧ let w := snd (run [ClickNext; KeyDown "End"; TimerFires; ClickPrev]
                    (snd (constructor sample_document))) in
    ui_shows (currentSlide w) w.
Proof.
  assert (doc_slides sample_document ≠ []) as Hne by discriminate.
  split; [done|].
  exact (ui_always_shows_current sample_document
           [ClickNext; KeyDown "End"; TimerFires; ClickPrev] Hne).
Defined.





(** ** The flags on the slides *)

Lemma lookup_after_exit_cue n w i sl :
  slides (after_exit_cue n w) !! i = Some sl →
  i = Z.to_nat (currentSlide w - 1) ∨ slides w !! i = Some sl.
Proof.
  unfold after_exit_cue. cbn. intros Hi.
  destruct (decide (i = Z.to_nat (currentSlide w - 1))) as [->|Hne]; [by left|].
  right. by rewrite list_lookup_alter_ne in Hi.
Qed.

(** X9. When the page marks no slide but the first as active, then in
    every world the deck reaches a slide carrying ['active'] sits at
    position [currentSlide - 1]: two slides are never active together and
    no slide other than the current one is ever shown. *)
Theorem active_slide_is_current (d : Document) (es : list Event) :
  doc_slides d ≠ [] → only_first_active (doc_slides d) →
  let w := snd (run es (snd (constructor d))) in
  ∀ i sl, slides w !! i = Some sl → has_class "active" sl →
          i = Z.to_nat (currentSlide w - 1).
Proof.
  intros Hne Hfirst w. subst w. rewrite (constructor_eq d Hne). cbn [snd].
  apply (run_invariant
           (λ w, ∀ i sl, slides w !! i = Some sl → has_class "active" sl →
                         i = Z.to_nat (currentSlide w - 1))).
  - done.
  - done.
  - intros w n Hwf Hn HP i sl Hi Hact.
    destruct (lookup_after_exit_cue _ _ _ _ Hi) as [->|Hi']; [done|].
    by apply (HP i sl).
  - intros w t rest Hwf Hq _ i sl Hi Hact.
    rewrite after_commit_currentSlide.
    apply after_commit_flags in Hi as [Hiff _]. by apply Hiff.
  - by apply wf_after_constructor.
  - unfold after_constructor. cbn. rewrite ui_projection_slides. cbn.
    rewrite ui_projection_currentSlide. cbn.
    intros i sl Hi Hact. destruct i as [|i]; [done|].
    exfalso. unfold only_first_active in Hfirst.
    eapply (Forall_lookup_1 _ _ i sl) in Hfirst; [done|].
    by rewrite lookup_drop.
Qed.

Lemma active_slide_is_current_witness :
  sample_slides ≠ [] ∧ only_first_active sample_slides
  ∧ let w := snd (run [CallGoToSlide 4; ClickNext; TimerFires]
                    (snd (constructor sample_document))) in
    ∀ i sl, slides w !! i = Some sl → has_class "active" sl →
            i = Z.to_nat (currentSlide w - 1).
Proof.
  assert (doc_slides sample_document ≠ []) as Hne by discriminate.
  assert (only_first_active (doc_slides sample_document)) as Hfirst.
  { unfold only_first_active. apply (bool_decide_unpack _). vm_compute. exact I. }
  split_and!; [done..|].
  exact (active_slide_is_current sample_document
           [CallGoToSlide 4; ClickNext; TimerFires] Hne Hfirst).
Defined.

(** X10. When the first slide of the page is marked active and no slide
    carries ['exit-left'], then in every world the deck reaches with no
    navigation pending the current slide is active and no slide carries
    ['exit-left']: the exit treatment never outlives its navigation. *)
Theorem quiescent_deck_shows_current (d : Document) (es : list Event) :
  first_active (doc_slides d) → no_exit_flag (doc_slides d) →
  let w := snd (run es (snd (constructor d))) in
  timers w = [] →
  (∃ sl, slides w !! Z.to_nat (currentSlide w - 1) = Some sl ∧ has_class "active" sl)
  ∧ ∀ i sl, slides w !! i = Some sl → ¬ has_class "exit-left" sl.
Proof.
  intros Hfirst Hnoexit w. subst w.
  assert (doc_slides d ≠ []) as Hne.
  { destruct Hfirst as (sl & Hsl & _). by destruct (doc_slides d). }
  rewrite (constructor_eq d Hne). cbn [snd].
  apply (run_invariant
           (λ w, timers w = [] →
                 (∃ sl, slides w !! Z.to_nat (currentSlide w - 1) = Some sl
                        ∧ has_class "active" sl)
                 ∧ ∀ i sl, slides w !! i = Some sl → ¬ has_class "exit-left" sl)).
  - done.
  - done.
  - intros w n _ _ _ Hq. unfold after_exit_cue in Hq. cbn in Hq.
    by destruct (timers w).
  - intros w t rest Hwf Hq _ _.
    destruct (wf_set_timers_tail _ _ _ Hwf Hq) as [(Htot & _) (Hn & _)].
    cbn in Htot. rewrite after_commit_currentSlide. split.
    + destruct (after_commit_target (slideNumber t) (set_timers rest w))
        as [sl Hsl]; [cbn; lia|].
      exists sl. split; [done|]. pose proof Hsl as Hsl'.
      apply after_commit_flags in Hsl' as [Hiff _]. by apply Hiff.
    + intros i sl Hi. by apply after_commit_flags in Hi as [_ ?].
  - by apply wf_after_constructor.
  - intros _. unfold after_constructor. cbn. rewrite ui_projection_slides. cbn.
    rewrite ui_projection_currentSlide. cbn. split; [exact Hfirst|].
    intros i sl Hi. by apply (Forall_lookup_1 _ _ i sl) in Hnoexit.
Qed.

Lemma quiescent_deck_shows_current_witness :
  first_active sample_slides ∧ no_exit_flag sample_slides
  ∧ let w := snd (run [ClickNext; TimerFires] (snd (constructor sample_document))) in
    timers w = []
    ∧ (∃ sl, slides w !! Z.to_nat (currentSlide w - 1) = Some sl
             ∧ has_class "active" sl)
    ∧ ∀ i sl, slides w !! i = Some sl → ¬ has_class "exit-left" sl.
Proof.
  assert (first_active (doc_slides sample_document)) as Hfirst.
  { eexists. split; [reflexivity|]. apply (bool_decide_unpack _). vm_compute. exact I. }
  assert (no_exit_flag (doc_slides sample_document)) as Hnoexit.
  { unfold no_exit_flag. apply (bool_decide_unpack _). vm_compute. exact I. }
  assert (timers (snd (run [ClickNext; TimerFires] (snd (constructor sample_document))))
          = []) as Hq by reflexivity.
  split; [exact Hfirst|]. split; [exact Hnoexit|]. split; [exact Hq|].
  exact (quiescent_deck_shows_current sample_document [ClickNext; TimerFires]
           Hfirst Hnoexit Hq).
Defined.

(** ** What the deck never touches *)

Lemma flags_only_remove_tokens toks :
  toks ⊆ ["active"; "exit-left"] → flags_only (remove_tokens toks).
Proof.
  intros Hsub sl. split; [apply titleText_remove_tokens|].
  intros c Ha He. pose proof (has_class_remove_tokens toks c sl) as H.
  unfold has_class in H. rewrite H. split; [tauto|]. intros Hc. split; [done|].
  intros Hin. apply Hsub in Hin.
  rewrite !elem_of_cons, elem_of_nil in Hin. tauto.
Qed.

Lemma flags_only_slide_add tok :
  tok ∈ ["active"; "exit-left"] → flags_only (slide_add tok).
Proof.
  intros Htok sl. split; [done|].
  intros c Ha He. pose proof (has_class_slide_add tok c sl) as H.
  unfold has_class in H. rewrite H. split; [|tauto].
  intros [?| ->]; [done|].
  rewrite !elem_of_cons, elem_of_nil in Htok. tauto.
Qed.

Lemma flags_only_leave forward : flags_only (leave forward).
Proof.
  intros sl. unfold leave.
  assert (flags_only (remove_tokens ["active"])) as Hrm
    by (apply flags_only_remove_tokens; intros c; rewrite !elem_of_cons; tauto).
  destruct forward; [|apply Hrm].
  assert ("exit-left" ∈ ["active"; "exit-left"]) as Hin
    by (rewrite !elem_of_cons; tauto).
  destruct (flags_only_slide_add "exit-left" Hin (remove_tokens ["active"] sl))
    as [Ht Hc].
  destruct (Hrm sl) as [Ht' Hc'].
  split; [congruence|]. intros c Ha He. rewrite Hc, Hc'; done.
Qed.

Lemma same_content_refl l : same_content l l.
Proof. apply Forall_Forall2_diag, Forall_forall. by intros. Qed.

Lemma same_content_alter f i l l' :
  flags_only f → same_content l l' → same_content l (alter f i l').
Proof.
  intros Hf Hl. unfold same_content in *.
  apply Forall2_alter_r; [done|].
  intros x y _ _ [Ht Hc]. destruct (Hf y) as [Ht' Hc'].
  split; [congruence|]. intros c Ha He. rewrite Hc, Hc'; done.
Qed.

Lemma same_content_fmap f l l' :
  flags_only f → same_content l l' → same_content l (f <$> l').
Proof.
  intros Hf Hl. unfold same_content in *.
  apply Forall2_fmap_r. eapply Forall2_impl; [exact Hl|].
  intros x y [Ht Hc]. cbn. destruct (Hf y) as [Ht' Hc'].
  split; [congruence|]. intros c Ha He. rewrite Hc, Hc'; done.
Qed.

(** X11. The deck only ever toggles ['active'] and ['exit-left']: from a
    well-formed world, whatever the events, the collection keeps its
    length, every slide keeps its title text and every class other than
    the two flags. *)
Theorem slides_keep_their_content (w : World) (es : list Event) :
  wf w →
  let w' := snd (run es w) in
  length (slides w') = length (slides w)
  ∧ same_content (slides w) (slides w').
Proof.
  intros Hwf w'.
  assert (same_content (slides w) (slides w')) as Hsame.
  { apply (run_invariant (λ w', same_content (slides w) (slides w'))).
    - done.
    - done.
    - intros w1 n _ _ H1. unfold after_exit_cue. cbn.
      apply same_content_alter; [apply flags_only_leave|done].
    - intros w1 t rest _ _ H1. rewrite after_commit_slides. cbn.
      apply same_content_alter;
        [apply flags_only_slide_add; rewrite !elem_of_cons; tauto|].
      apply same_content_fmap; [by apply flags_only_remove_tokens|done].
    - done.
    - apply same_content_refl. }
  split; [|done]. symmetry. by eapply Forall2_length.
Qed.

Lemma slides_keep_their_content_witness :
  wf deck5
  ∧ let w' := snd (run [ClickNext; TimerFires; KeyDown "End"] deck5) in
    length (slides w') = length (slides deck5)
    ∧ same_content (slides deck5) (slides w').
Proof.
  assert (wf deck5) as Hwf by by_computation.
  split; [done|].
  exact (slides_keep_their_content deck5 [ClickNext; TimerFires; KeyDown "End"] Hwf).
Defined.

(** ** The document title *)

Lemma title_of_alter f i j l :
  (∀ sl, titleText (f sl) = titleText sl) → title_of (alter f i l) j = title_of l j.
Proof.
  intros Hf. unfold title_of.
  destruct (decide (i = j)) as [->|Hne].
  - rewrite list_lookup_alter_eq. destruct (l !! j); [cbn; apply Hf|done].
  - by rewrite list_lookup_alter_ne.
Qed.

Lemma title_of_fmap f j l :
  (∀ sl, titleText (f sl) = titleText sl) → title_of (f <$> l) j = title_of l j.
Proof.
  intros Hf. unfold title_of. rewrite list_lookup_fmap.
  destruct (l !! j); [cbn; apply Hf|done].
Qed.

(** X12. The title follows the slides that have one: when a pending
    navigation commits, the document title becomes the title text of the
    target slide followed by [" - GMC Acadia Korea Market"] if the target
    has a title element, and stays what it was, the title of an earlier
    slide, if it has none. *)
Theorem commit_projects_title (w : World) (t : Timer) (rest : list Timer) :
  wf w → timers w = t :: rest →
  documentTitle (snd (fireTimer w)) =
  match title_of (slides w) (Z.to_nat (slideNumber t - 1)) with
  | Some text => text +:+ title_suffix
  | None => documentTitle w
  end.
Proof.
  intros Hwf Hq. rewrite (fireTimer_eq _ _ _ Hwf Hq). cbn [snd].
  unfold after_commit. cbn. rewrite ui_projection_documentTitle. cbn.
  rewrite title_of_alter by done.
  rewrite title_of_fmap by (intros; apply titleText_remove_tokens).
  done.
Qed.

Lemma commit_projects_title_witness :
  let w := snd (goToSlide 2 deck5) in
  wf w ∧ timers w = [mkTimer (Some 1%nat) 2 50]
  ∧ documentTitle (snd (fireTimer w)) = "Intro - GMC Acadia Korea Market".
Proof.
  intros w.
  assert (wf w) as Hwf by by_computation.
  assert (timers w = [mkTimer (Some 1%nat) 2 50]) as Hq by reflexivity.
  split_and!; [done..|].
  exact (commit_projects_title w _ _ Hwf Hq).
Defined.

(** ** Idempotence of the projection *)

Lemma ui_projection_idempotent w : ui_projection (ui_projection w) = ui_projection w.
Proof.
  unfold ui_projection at 1.
  rewrite ui_projection_currentSlide, ui_projection_totalSlides, ui_projection_slides.
  unfold ui_projection.
  destruct (title_of (slides w) (Z.to_nat (currentSlide w - 1))); reflexivity.
Qed.

(** X13. [updateUI] is idempotent: on a well-formed deck it returns
    normally, and running it a second time changes nothing more. *)
Theorem updateUI_idempotent (w : World) :
  wf w →
  ∃ w1, updateUI w = (Normal tt, w1) ∧ updateUI w1 = (Normal tt, w1).
Proof.
  intros Hwf. pose proof (wf_current_item w Hwf) as Hcur.
  exists (ui_projection w). split; [by apply updateUI_eq|].
  rewrite updateUI_eq.
  - by rewrite ui_projection_idempotent.
  - by rewrite ui_projection_currentSlide, ui_projection_slides.
Qed.

Lemma updateUI_idempotent_witness :
  wf deck5_at3
  ∧ ∃ w1, updateUI deck5_at3 = (Normal tt, w1) ∧ updateUI w1 = (Normal tt, w1).
Proof.
  assert (wf deck5_at3) as Hwf by by_computation.
  split; [done|]. exact (updateUI_idempotent deck5_at3 Hwf).
Defined.

(** * Further properties of the tracker *)

Section ViewTimeSums.
Import SlideAnalytics.

Lemma add_time_comm (m : gmap Z Value) :
  ∀ j1 j2 z1 z2 y,
    j1 ≠ j2 → m !! j1 = Some z1 → m !! j2 = Some z2 →
    add_time j1 z1 (add_time j2 z2 y) = add_time j2 z2 (add_time j1 z1 y).
Proof. intros. unfold add_time. lia. Qed.

Lemma sum_insert (m : gmap Z Value) n v :
  map_fold add_time 0 (<[n:=v]> m) =
  map_fold add_time 0 m
  - match m !! n with Some old => milliseconds old | None => 0 end
  + milliseconds v.
Proof.
  rewrite <- (insert_delete_eq m n v).
  rewrite map_fold_insert_L;
    [|apply add_time_comm|apply lookup_delete_eq].
  destruct (m !! n) as [old|] eqn:Hn.
  - rewrite (map_fold_delete_L add_time 0 n old m); [|apply add_time_comm|done].
    unfold add_time. lia.
  - rewrite (delete_id m n Hn). unfold add_time. lia.
Qed.

Lemma trackSlideChange_map (a : t) n now :
  slideViewTimes (trackSlideChange n now a) =
  <[n := Ms (accumulated a n + (now - currentSlideStartTime a))]> (slideViewTimes a).
Proof.
  unfold trackSlideChange, accumulated. cbn.
  destruct (slideViewTimes a !! n) as [[z|]|] eqn:Hn; cbn.
  - destruct (Z.eqb_spec z 0) as [->|Hz]; cbn.
    + by rewrite lookup_insert_eq, insert_insert_eq.
    + by rewrite Hn.
  - by rewrite lookup_insert_eq, insert_insert_eq.
  - by rewrite lookup_insert_eq, insert_insert_eq.
Qed.

Lemma total_view_time_step (a : t) n now :
  total_view_time (trackSlideChange n now a) =
  total_view_time a + (now - currentSlideStartTime a).
Proof.
  unfold total_view_time. rewrite trackSlideChange_map.
  rewrite sum_insert. unfold accumulated.
  destruct (slideViewTimes a !! n) as [[z|]|]; cbn; lia.
Qed.

Lemma track_all_sum calls :
  ∀ a : t,
    total_view_time (track_all calls a) - total_view_time a =
    currentSlideStartTime (track_all calls a) - currentSlideStartTime a
    ∧ startTime (track_all calls a) = startTime a
    ∧ currentSlideStartTime (track_all calls a) =
      default (currentSlideStartTime a) (last (snd <$> calls)).
Proof.
  induction calls as [|[n now] calls IH]; intros a; cbn [track_all].
  - cbn. split_and!; [lia|done|done].
  - destruct (IH (trackSlideChange n now a)) as (Hsum & Hstart & Hlast).
    rewrite total_view_time_step in Hsum. cbn in Hsum, Hstart, Hlast.
    split_and!; [lia|done|].
    rewrite Hlast. destruct calls as [|c calls']; [done|].
    change (snd <$> (n, now) :: c :: calls')
      with (now :: snd c :: (snd <$> calls')).
    change (snd <$> c :: calls') with (snd c :: (snd <$> calls')).
    rewrite last_cons_cons.
    by destruct (last_is_Some (snd c :: (snd <$> calls'))) as [_ [x ->]].
Qed.

Lemma accumulated_step (a : t) n now k :
  accumulated (trackSlideChange n now a) k =
  if decide (k = n) then accumulated a n + (now - currentSlideStartTime a)
  else accumulated a k.
Proof.
  unfold accumulated at 1. rewrite trackSlideChange_map. case_decide as Hk.
  - subst k. by rewrite lookup_insert_eq.
  - by rewrite lookup_insert_ne.
Qed.

Lemma track_all_monotone calls :
  ∀ (a : t) k,
    clock_monotone (currentSlideStartTime a) calls →
    accumulated a k <= accumulated (track_all calls a) k.
Proof.
  induction calls as [|[n now] calls IH]; intros a k Hmono; cbn [track_all]; [lia|].
  destruct Hmono as [Hle Hmono].
  specialize (IH (trackSlideChange n now a) k Hmono).
  rewrite accumulated_step in IH. case_decide; [subst k|]; lia.
Qed.
End ViewTimeSums.

(** X14. View times add up to the time covered: after any sequence of
    calls on a fresh tracker, the sum of all view times is the time from
    the constructor's second clock reading to the last recorded
    transition (whatever the slide numbers and even if the clock jumped),
    the session start is untouched, and the report's total time exceeds
    that sum by the time since the last transition plus the gap between
    the constructor's two readings. *)
Theorem view_times_sum_to_elapsed (t0 t1 : Z) (calls : list (Z * Z)) :
  let a := track_all calls (SlideAnalytics.constructor t0 t1) in
  SlideAnalytics.currentSlideStartTime a = default t1 (last (snd <$> calls))
  ∧ total_view_time a = SlideAnalytics.currentSlideStartTime a - t1
  ∧ SlideAnalytics.startTime a = t0
  ∧ ∀ now, fst (SlideAnalytics.getReport now a) - total_view_time a =
           (now - SlideAnalytics.currentSlideStartTime a) + (t1 - t0).
Proof.
  intros a.
  destruct (track_all_sum calls (SlideAnalytics.constructor t0 t1))
    as (Hsum & Hstart & Hlast).
  fold a in Hsum, Hstart, Hlast. cbn in Hsum, Hstart, Hlast.
  assert (total_view_time (SlideAnalytics.constructor t0 t1) = 0) as H0
    by reflexivity.
  split_and!; [done|lia|done|].
  intros now. unfold SlideAnalytics.getReport. cbn [fst]. lia.
Qed.

(** X15. While the clock does not run backwards, no view time ever
    decreases, whatever the calls. *)
Theorem view_times_never_decrease
    (a : SlideAnalytics.t) (calls : list (Z * Z)) (k : Z) :
  clock_monotone (SlideAnalytics.currentSlideStartTime a) calls →
  SlideAnalytics.accumulated a k
  <= SlideAnalytics.accumulated (track_all calls a) k.
Proof. apply track_all_monotone. Qed.

Lemma view_times_never_decrease_witness :
  let a := SlideAnalytics.trackSlideChange 1 1500 (SlideAnalytics.constructor 1000 1000) in
  clock_monotone (SlideAnalytics.currentSlideStartTime a) [(2, 1700); (1, 2400)]
  ∧ SlideAnalytics.accumulated a 1
    <= SlideAnalytics.accumulated (track_all [(2, 1700); (1, 2400)] a) 1.
Proof.
  intros a.
  assert (clock_monotone (SlideAnalytics.currentSlideStartTime a)
            [(2, 1700); (1, 2400)]) as Hmono by (cbn; lia).
  split; [done|]. exact (view_times_never_decrease a _ 1 Hmono).
Defined.

(** * Properties of the page *)

Lemma load_on_slides d opacity0 transition0 :
  doc_slides d ≠ [] →
  onDOMContentLoaded d opacity0 transition0 =
  (Normal tt,
   mkPage (set_console (console (after_constructor d) ++ ready_lines)
             (after_constructor d)) true "0" transition0 true []).
Proof.
  intros Hne. unfold onDOMContentLoaded. by rewrite (constructor_eq d Hne).
Qed.

(** X16. Loading. On a page with slides the [DOMContentLoaded] listener
    returns normally, publishes the deck, hides the body (opacity 0) with
    the fade-in pending, and the console holds the line of the
    constructor followed by the three lines of the listener. On a page
    without slides the constructor's exception leaves the listener before
    any of that: the deck is not published, the body keeps its style, no
    fade-in is pending and nothing was logged. *)
Theorem page_load (d : Document) (opacity0 transition0 : string) :
  let r := onDOMContentLoaded d opacity0 transition0 in
  (doc_slides d ≠ [] →
   fst r = Normal tt
   ∧ slideDeckPublished (snd r) = true
   ∧ bodyOpacity (snd r) = "0"
   ∧ bodyTransition (snd r) = transition0
   ∧ fadePending (snd r) = true
   ∧ wf (world (snd r))
   ∧ console (world (snd r)) =
     ("Slide deck initialized: " +:+ pretty (Z.of_nat (length (doc_slides d))) +:+
      " slides loaded") :: ready_lines)
  ∧ (doc_slides d = [] →
     (∃ e, fst r = Throw e)
     ∧ slideDeckPublished (snd r) = false
     ∧ bodyOpacity (snd r) = opacity0
     ∧ bodyTransition (snd r) = transition0
     ∧ fadePending (snd r) = false
     ∧ console (world (snd r)) = []).
Proof.
  intros r. subst r. unfold onDOMContentLoaded. split.
  - intros Hne. rewrite (constructor_eq d Hne). cbn.
    split_and!; try done.
    + by apply (wf_after_constructor d Hne).
    + by rewrite ui_projection_console.
  - intros Hnil.
    destruct (constructor_throws_without_slides d Hnil) as (e & w & Hc).
    rewrite Hc. cbn. split_and!; try done; [by exists e|].
    revert Hc. unfold constructor, console_log. js_eval.
    destruct (updateUI_throws (initial_world d)) as (e' & w' & Hu).
    { cbn. rewrite Hnil. cbn. lia. }
    rewrite Hu. intros [= _ <-].
    revert Hu. unfold updateUI, querySelector_title, deref. js_eval.
    rewrite updateButtonStates_eq. cbn. rewrite Hnil. cbn.
    by intros [= _ <-].
Qed.

Lemma page_load_witness :
  (sample_slides ≠ []
   ∧ bodyOpacity (snd (onDOMContentLoaded sample_document "" "")) = "0")
  ∧ (doc_slides empty_document = []
     ∧ bodyOpacity (snd (onDOMContentLoaded empty_document "" "")) = "").
Proof.
  assert (doc_slides sample_document ≠ []) as Hne by discriminate.
  assert (doc_slides empty_document = []) as Hnil by reflexivity.
  split; (split; [done|]).
  - exact (proj1 (proj2 (proj2 (proj1 (page_load sample_document "" "") Hne)))).
  - exact (proj1 (proj2 (proj2 (proj2 (page_load empty_document "" "") Hnil)))).
Defined.

Lemma page_handle_deck_frame e p :
  let p' := snd (page_handle (DeckEvent e) p) in
  bodyOpacity p' = bodyOpacity p
  ∧ bodyTransition p' = bodyTransition p
  ∧ fadePending p' = fadePending p
  ∧ slideDeckPublished p' = slideDeckPublished p.
Proof.
  cbn [page_handle].
  assert (∀ p1, bodyOpacity p1 = bodyOpacity p ∧ bodyTransition p1 = bodyTransition p
                ∧ fadePending p1 = fadePending p
                ∧ slideDeckPublished p1 = slideDeckPublished p →
                let p' := snd (let '(c, w') := handle e (world p1) in
                               (c, set_world w' p1)) in
                bodyOpacity p' = bodyOpacity p ∧ bodyTransition p' = bodyTransition p
                ∧ fadePending p' = fadePending p
                ∧ slideDeckPublished p' = slideDeckPublished p) as Hgen.
  { intros p1 H. by destruct (handle e (world p1)). }
  apply Hgen. destruct e; try done.
  unfold onHelpKey. by case_bool_decide.
Qed.

Lemma page_run_fade pes :
  ∀ p,
    let p' := snd (page_run pes p) in
    bodyOpacity p' =
      (if bool_decide (FadeTimerFires ∈ pes) && fadePending p
       then "1" else bodyOpacity p)
    ∧ fadePending p' = (if bool_decide (FadeTimerFires ∈ pes) then false else fadePending p)
    ∧ slideDeckPublished p' = slideDeckPublished p.
Proof.
  induction pes as [|pe pes IH]; intros p; cbn [page_run].
  - cbn. by split_and!.
  - destruct (page_handle pe p) as [c p1] eqn:Hpe.
    specialize (IH p1). destruct (page_run pes p1) as [cs p2]. cbn [snd] in *.
    destruct IH as (Hop & Hfp & Hpub).
    destruct pe as [e|].
    + pose proof (page_handle_deck_frame e p) as (H1 & _ & H3 & H4).
      rewrite Hpe in H1, H3, H4. cbn [snd] in H1, H3, H4.
      rewrite Hop, Hfp, Hpub, H1, H3, H4.
      assert (bool_decide (FadeTimerFires ∈ DeckEvent e :: pes)
              = bool_decide (FadeTimerFires ∈ pes)) as ->.
      { apply bool_decide_ext. rewrite elem_of_cons.
        split; [by intros [?|?]|by right]. }
      done.
    + cbn in Hpe. injection Hpe as <- <-.
      rewrite Hop, Hfp, Hpub.
      rewrite (bool_decide_eq_true_2 (FadeTimerFires ∈ FadeTimerFires :: pes))
        by (apply elem_of_cons; by left).
      destruct (fadePending p) eqn:Hp; cbn.
      * rewrite andb_false_r. by case_bool_decide.
      * rewrite Hp, andb_false_r. by case_bool_decide.
Qed.

(** X17. The fade-in is the only thing that shows the page again: after
    a successful load, whatever events follow in whatever order, the body
    is at opacity 1 exactly when the fade timer has fired and at opacity 0
    otherwise; no navigation, key or touch changes it, and the deck stays
    published. *)
Theorem body_visible_iff_fade_fired
    (d : Document) (opacity0 transition0 : string) (pes : list PageEvent) :
  doc_slides d ≠ [] →
  let p := snd (page_run pes (snd (onDOMContentLoaded d opacity0 transition0))) in
  bodyOpacity p = (if bool_decide (FadeTimerFires ∈ pes) then "1" else "0")
  ∧ fadePending p = negb (bool_decide (FadeTimerFires ∈ pes))
  ∧ slideDeckPublished p = true.
Proof.
  intros Hne p. subst p.
  destruct (page_run_fade pes (snd (onDOMContentLoaded d opacity0 transition0)))
    as (-> & -> & ->).
  rewrite (load_on_slides d opacity0 transition0 Hne). cbn [snd].
  cbn [bodyOpacity fadePending slideDeckPublished]. rewrite andb_true_r.
  by case_bool_decide.
Qed.

Lemma body_visible_iff_fade_fired_witness :
  sample_slides ≠ []
  ∧ bodyOpacity
      (snd (page_run [DeckEvent ClickNext; FadeTimerFires; DeckEvent TimerFires]
              (snd (onDOMContentLoaded sample_document "" "")))) = "1".
Proof.
  assert (doc_slides sample_document ≠ []) as Hne by discriminate.
  split; [done|].
  exact (proj1 (body_visible_iff_fade_fired sample_document "" ""
                  [DeckEvent ClickNext; FadeTimerFires; DeckEvent TimerFires] Hne)).
Defined.

Lemma page_run_alerts pes :
  ∀ p,
    alerts (snd (page_run pes p)) =
    alerts p ++
    replicate (length (filter (λ pe, pe = DeckEvent (KeyDown "?")) pes)) help_text.
Proof.
  induction pes as [|pe pes IH]; intros p; cbn [page_run].
  - cbn. by rewrite app_nil_r.
  - destruct (page_handle pe p) as [c p1] eqn:Hpe.
    specialize (IH p1). destruct (page_run pes p1) as [cs p2]. cbn [snd] in *.
    rewrite IH, filter_cons. clear IH.
    assert (alerts p1 =
            alerts p ++ (if decide (pe = DeckEvent (KeyDown "?"))
                         then [help_text] else [])) as ->.
    { replace p1 with (snd (page_handle pe p)) by (by rewrite Hpe). clear Hpe.
      destruct pe as [e|]; cbn [page_handle].
      - assert (∀ p1, alerts (snd (let '(c, w') := handle e (world p1) in
                                   (c, set_world w' p1))) = alerts p1) as Hframe.
        { intros q. by destruct (handle e (world q)). }
        rewrite Hframe. destruct e; try (by rewrite decide_False, app_nil_r).
        unfold onHelpKey. case_bool_decide as Hk.
        + subst key. by rewrite decide_True.
        + rewrite decide_False, app_nil_r; [done|]. by intros [= ->].
      - rewrite decide_False, app_nil_r by done. by destruct (fadePending p). }
    case_decide; cbn [length replicate]; by rewrite <- app_assoc.
Qed.

(** X18. The help dialog: the ['?'] key shows the shortcut summary once
    and leaves the deck exactly as it was; over any sequence of page
    events the dialogs shown are one per ['?'] key press, so no other key,
    click, touch or timer ever opens one. *)
Theorem help_dialog_only_on_question_mark (p : Page) (pes : list PageEvent) :
  page_handle (DeckEvent (KeyDown "?")) p =
    (Normal tt,
     mkPage (world p) (slideDeckPublished p) (bodyOpacity p) (bodyTransition p)
       (fadePending p) (alerts p ++ [help_text]))
  ∧ alerts (snd (page_run pes p)) =
    alerts p ++
    replicate (length (filter (λ pe, pe = DeckEvent (KeyDown "?")) pes)) help_text.
Proof. split; [reflexivity|apply page_run_alerts]. Qed.
